(** * xhooks: a shallow embedding of the hooks of [src/unnamed/part_003]

    The hooks are React functions.  Each is modelled with the React
    semantics it relies on: [useState] (a cell, its setter, the bail-out on
    [Object.is]-equal values), [useEffect] (run after a commit when one of
    its dependencies changed, cleanup on release), and the browser APIs the
    hooks call ([localStorage]/[sessionStorage], [JSON.stringify] and
    [JSON.parse], [setTimeout], [addEventListener], [matchMedia],
    [navigator.geolocation]). *)

From Stdlib Require Import String Ascii ZArith List Lia Bool.
From Stdlib Require Import DecimalN DecimalFacts QArith.
From stdpp Require Import base gmap strings.

#[local] Set Warnings "-register-all".
(** stdpp blocks [simpl] on string append; the proofs below compute with it. *)
#[local] Arguments String.append : simpl nomatch.


(* ================================================================== *)

(* ================================================================== *)
(** ** JavaScript values *)

Module Js.

(** A JavaScript string: its sequence of UTF-16 code units. *)
Definition jsstring : Type := list N.

(** The code unit of an ASCII character. *)
Definition ch (a : ascii) : N := N.of_nat (nat_of_ascii a).

(** The code units of an ASCII text (keys, literals of the examples). *)
Definition js (s : string) : jsstring := map ch (list_ascii_of_string s).

Fixpoint units_eqb (s t : jsstring) : bool :=
  match s, t with
  | nil, nil => true
  | c :: s', d :: t' => N.eqb c d && units_eqb s' t'
  | _, _ => false
  end.

(** Truthiness of a string, as in [item ? ... : ...]: only the empty
    string is falsy. *)
Definition truthy_string (s : jsstring) : bool :=
  match s with nil => false | _ => true end.

(** *** JSON number tokens *)

Definition is_digit (c : N) : bool := (ch "0" <=? c)%N && (c <=? ch "9")%N.

(** The longest run of decimal digits, and what follows it. *)
Fixpoint digits (s : jsstring) : jsstring * jsstring :=
  match s with
  | c :: r =>
      if is_digit c then let (d, r') := digits r in (c :: d, r') else (nil, s)
  | nil => (nil, nil)
  end.

(** JSON's [int]: [0], or a non-zero digit followed by digits. *)
Definition read_int (s : jsstring) : option (jsstring * jsstring) :=
  match s with
  | c :: r =>
      if N.eqb c (ch "0") then Some (c :: nil, r)
      else if is_digit c then let (d, r') := digits r in Some (c :: d, r')
      else None
  | nil => None
  end.

(** JSON's optional [frac]: a point and at least one digit. *)
Definition read_frac (s : jsstring) : option (jsstring * jsstring) :=
  match s with
  | c :: r =>
      if N.eqb c (ch ".") then
        match digits r with
        | (nil, _) => None
        | (d, r') => Some (c :: d, r')
        end
      else Some (nil, s)
  | nil => Some (nil, nil)
  end.

(** JSON's optional [exp]: [e] or [E], an optional sign, at least one
    digit. *)
Definition read_exp (s : jsstring) : option (jsstring * jsstring) :=
  match s with
  | c :: r =>
      if N.eqb c (ch "e") || N.eqb c (ch "E") then
        let (sg, r1) :=
          match r with
          | d :: r2 =>
              if N.eqb d (ch "+") || N.eqb d (ch "-") then (d :: nil, r2) else (nil, r)
          | nil => (nil, nil)
          end in
        match digits r1 with
        | (nil, _) => None
        | (d, r') => Some (c :: sg ++ d, r')
        end
      else Some (nil, s)
  | nil => Some (nil, nil)
  end.

(** A JSON [number] token, [-]? int frac? exp?, and what follows it. *)
Definition read_number (s : jsstring) : option (jsstring * jsstring) :=
  let (sg, s1) :=
    match s with
    | c :: r => if N.eqb c (ch "-") then (c :: nil, r) else (nil, s)
    | nil => (nil, nil)
    end in
  match read_int s1 with
  | None => None
  | Some (i, s2) =>
      match read_frac s2 with
      | None => None
      | Some (fr, s3) =>
          match read_exp s3 with
          | None => None
          | Some (e, s4) => Some (sg ++ i ++ fr ++ e, s4)
          end
      end
  end.

(** [s] is exactly one JSON number token. *)
Definition number_literal (s : jsstring) : bool :=
  match read_number s with Some (_, nil) => true | _ => false end.

(** *** Numbers

    The hooks never compute with numbers; they only pass them through
    [JSON.stringify], [JSON.parse] and [Object.is].  The Number type is
    therefore taken with exactly these three operations and the laws
    ECMAScript gives them: [Object.is] on numbers (SameValue) is equality
    of Number values; [Number::toString] of a finite number is a JSON
    number token; and the Number value of that token ([StringToNumber]) is
    the number again, [-0] apart ([(-0).toString()] is ["0"]). *)
Class JsNumber : Type := {
  number : Type;
  number_is : number -> number -> bool;
  number_finite : number -> bool;
  number_negative_zero : number -> bool;
  number_to_string : number -> jsstring;
  number_of_literal : jsstring -> number;
  number_is_spec : forall a b, number_is a b = true <-> a = b;
  number_to_string_literal : forall n,
    number_finite n = true -> number_literal (number_to_string n) = true;
  number_literal_round_trip : forall n,
    number_finite n = true -> number_negative_zero n = false ->
    number_of_literal (number_to_string n) = n
}.

Section Values.
Context {NUM : JsNumber}.

(** A JavaScript value as the hooks hold it in React state.  Arrays and
    objects carry the reference ([ref]) that [Object.is] compares, with
    their current contents; an object's fields are listed in the order
    its own properties are enumerated. *)
Inductive jsval : Type :=
| JUndefined
| JNull
| JBool (b : bool)
| JNum (n : number)
| JStr (s : jsstring)
| JArr (ref : N) (items : list jsval)
| JObj (ref : N) (fields : list (jsstring * jsval)).

Section jsval_rect.
Variable P : jsval -> Prop.
Hypothesis HU : P JUndefined.
Hypothesis HN : P JNull.
Hypothesis HB : forall b, P (JBool b).
Hypothesis HZ : forall n, P (JNum n).
Hypothesis HS : forall s, P (JStr s).
Hypothesis HA : forall r xs, Forall P xs -> P (JArr r xs).
Hypothesis HO : forall r fs, Forall (fun kv => P (snd kv)) fs -> P (JObj r fs).

Fixpoint jsval_ind' (v : jsval) : P v :=
  match v with
  | JUndefined => HU
  | JNull => HN
  | JBool b => HB b
  | JNum n => HZ n
  | JStr s => HS s
  | JArr r xs =>
      HA r xs ((fix go (l : list jsval) : Forall P l :=
                  match l with
                  | nil => @List.Forall_nil _ _
                  | x :: l' => @List.Forall_cons _ _ x l' (jsval_ind' x) (go l')
                  end) xs)
  | JObj r fs =>
      HO r fs ((fix go (l : list (jsstring * jsval))
                  : Forall (fun kv => P (snd kv)) l :=
                  match l with
                  | nil => @List.Forall_nil _ _
                  | kv :: l' => @List.Forall_cons _ _ kv l' (jsval_ind' (snd kv)) (go l')
                  end) fs)
  end.
End jsval_rect.

(** Structural equality of values, references included. *)
Fixpoint jsval_eqb (a b : jsval) : bool :=
  match a, b with
  | JUndefined, JUndefined => true
  | JNull, JNull => true
  | JBool x, JBool y => Bool.eqb x y
  | JNum x, JNum y => number_is x y
  | JStr x, JStr y => units_eqb x y
  | JArr r xs, JArr r' ys =>
      N.eqb r r' &&
      (fix go (l l' : list jsval) : bool :=
         match l, l' with
         | nil, nil => true
         | x :: t, y :: t' => jsval_eqb x y && go t t'
         | _, _ => false
         end) xs ys
  | JObj r fs, JObj r' gs =>
      N.eqb r r' &&
      (fix go (l l' : list (jsstring * jsval)) : bool :=
         match l, l' with
         | nil, nil => true
         | (k, x) :: t, (k', y) :: t' =>
             units_eqb k k' && jsval_eqb x y && go t t'
         | _, _ => false
         end) fs gs
  | _, _ => false
  end.

Definition is_primitive (v : jsval) : bool :=
  match v with JArr _ _ | JObj _ _ => false | _ => true end.

(** [Object.is]: primitives by value (numbers by SameValue), arrays and
    objects by reference only.  Two values with the same reference are
    the same object, possibly with different contents when it was
    mutated in between. *)
Definition object_is (a b : jsval) : bool :=
  match a, b with
  | JArr r _, JArr r' _ => N.eqb r r'
  | JObj r _, JObj r' _ => N.eqb r r'
  | _, _ => jsval_eqb a b
  end.

(** The same value with every reference forgotten: two values are
    structurally equal when their [strip]s are equal. *)
Fixpoint strip (v : jsval) : jsval :=
  match v with
  | JArr _ xs => JArr 0 (map strip xs)
  | JObj _ fs => JObj 0 (map (fun kv => (fst kv, strip (snd kv))) fs)
  | v => v
  end.

End Values.

End Js.

(* ================================================================== *)
(** ** [JSON.stringify] and [JSON.parse] *)

Module Json.
Import Js.

Definition quote : N := 34.
Definition backslash : N := 92.
Definition comma : N := 44.

Definition is_high_surrogate (c : N) : bool := (55296 <=? c)%N && (c <=? 56319)%N.
Definition is_low_surrogate (c : N) : bool := (56320 <=? c)%N && (c <=? 57343)%N.

(** Lower-case hexadecimal digit of [n < 16]. *)
Definition hex_digit (n : N) : N :=
  if (n <? 10)%N then (ch "0" + n)%N else (87 + n)%N.

(** [UnicodeEscape(c)]: [\u] and four lower-case hexadecimal digits. *)
Definition unicode_escape (c : N) : jsstring :=
  backslash :: ch "u" :: hex_digit (c / 4096 mod 16) :: hex_digit (c / 256 mod 16)
    :: hex_digit (c / 16 mod 16) :: hex_digit (c mod 16) :: nil.

(** How [QuoteJSONString] writes a code unit that is not a surrogate. *)
Definition escape_unit (c : N) : jsstring :=
  if N.eqb c 8 then backslash :: ch "b" :: nil
  else if N.eqb c 9 then backslash :: ch "t" :: nil
  else if N.eqb c 10 then backslash :: ch "n" :: nil
  else if N.eqb c 12 then backslash :: ch "f" :: nil
  else if N.eqb c 13 then backslash :: ch "r" :: nil
  else if N.eqb c quote then backslash :: quote :: nil
  else if N.eqb c backslash then backslash :: backslash :: nil
  else if (c <? 32)%N then unicode_escape c
  else c :: nil.

(** [QuoteJSONString] without its quotes: a surrogate pair is copied, a
    lone surrogate is written as a [\u] escape (well-formed
    [JSON.stringify]). *)
Fixpoint escape_units (s : jsstring) : jsstring :=
  match s with
  | nil => nil
  | c :: r =>
      if is_high_surrogate c then
        match r with
        | d :: r' =>
            if is_low_surrogate d then c :: d :: escape_units r'
            else unicode_escape c ++ escape_units r
        | nil => unicode_escape c
        end
      else if is_low_surrogate c then unicode_escape c ++ escape_units r
      else escape_unit c ++ escape_units r
  end.

Definition quote_json (s : jsstring) : jsstring :=
  quote :: escape_units s ++ quote :: nil.

(** The parts joined with commas. *)
Fixpoint join (l : list jsstring) : jsstring :=
  match l with
  | nil => nil
  | x :: nil => x
  | x :: t => x ++ comma :: join t
  end.

Section Codec.
Context {NUM : JsNumber}.

(** The [key:value] parts of an object; a field whose value stringifies
    to [undefined] is left out. *)
Fixpoint fields_text (str : jsval -> option jsstring) (l : list (jsstring * jsval))
  : list jsstring :=
  match l with
  | nil => nil
  | (k, x) :: l' =>
      match str x with
      | Some t => (quote_json k ++ ch ":" :: t) :: fields_text str l'
      | None => fields_text str l'
      end
  end.

(** [JSON.stringify v]; [None] is its [undefined] result.  A number that
    is not finite is written [null]; inside an array an [undefined]
    element is written [null]; an object field whose value is
    [undefined] is left out. *)
Fixpoint stringify (v : jsval) : option jsstring :=
  match v with
  | JUndefined => None
  | JNull => Some (js "null")
  | JBool true => Some (js "true")
  | JBool false => Some (js "false")
  | JNum n => Some (if number_finite n then number_to_string n else js "null")
  | JStr s => Some (quote_json s)
  | JArr _ xs =>
      Some (ch "[" :: join (map (fun x => match stringify x with
                                          | Some t => t
                                          | None => js "null"
                                          end) xs) ++ ch "]" :: nil)
  | JObj _ fs =>
      Some (ch "{" :: join (fields_text stringify fs) ++ ch "}" :: nil)
  end.

End Codec.

(** The string [localStorage.setItem] stores for [JSON.stringify v]: the
    store converts its argument with [String], so [undefined] is stored as
    the text [undefined]. *)
Definition stored_text (r : option jsstring) : jsstring :=
  match r with Some t => t | None => js "undefined" end.

(** *** [JSON.parse] *)

(** JSON whitespace: space, tab, line feed, carriage return. *)
Definition is_ws (c : N) : bool :=
  N.eqb c 32 || N.eqb c 9 || N.eqb c 10 || N.eqb c 13.

Fixpoint skip_ws (s : jsstring) : jsstring :=
  match s with
  | c :: r => if is_ws c then skip_ws r else s
  | nil => nil
  end.

(** Value of a hexadecimal digit, either case. *)
Definition hex_val (c : N) : option N :=
  if (48 <=? c)%N && (c <=? 57)%N then Some (c - 48)%N
  else if (97 <=? c)%N && (c <=? 102)%N then Some (c - 87)%N
  else if (65 <=? c)%N && (c <=? 70)%N then Some (c - 55)%N
  else None.

(** The one-character escapes: quote, backslash, slash, b, f, n, r, t. *)
Definition simple_unescape (c : N) : option N :=
  if N.eqb c quote then Some quote
  else if N.eqb c backslash then Some backslash
  else if N.eqb c (ch "/") then Some c
  else if N.eqb c (ch "b") then Some 8%N
  else if N.eqb c (ch "f") then Some 12%N
  else if N.eqb c (ch "n") then Some 10%N
  else if N.eqb c (ch "r") then Some 13%N
  else if N.eqb c (ch "t") then Some 9%N
  else None.

(** Where the scanner of a string literal is: plain text, after a
    backslash, or inside [\uXXXX] with [k] digits still to read. *)
Inductive str_state : Type :=
| SText
| SEscape
| SUnicode (k : nat) (acc : N).

Definition cons_fst (c : N) (r : option (jsstring * jsstring))
  : option (jsstring * jsstring) :=
  match r with
  | Some (t, rest) => Some (c :: t, rest)
  | None => None
  end.

(** Scans the body of a string literal up to its closing quote and
    returns the decoded code units and what follows the quote.  A raw
    code unit below [0x20] is a syntax error; any other is taken as it is,
    and [\uXXXX] gives the code unit [XXXX], a lone surrogate included. *)
Fixpoint string_body (st : str_state) (s : jsstring) : option (jsstring * jsstring) :=
  match s with
  | nil => None
  | c :: r =>
      match st with
      | SText =>
          if N.eqb c quote then Some (nil, r)
          else if N.eqb c backslash then string_body SEscape r
          else if (c <? 32)%N then None
          else cons_fst c (string_body SText r)
      | SEscape =>
          match simple_unescape c with
          | Some c' => cons_fst c' (string_body SText r)
          | None =>
              if N.eqb c (ch "u") then string_body (SUnicode 4 0) r else None
          end
      | SUnicode k acc =>
          match hex_val c with
          | None => None
          | Some h =>
              let acc' := (acc * 16 + h)%N in
              match k with
              | 1 => cons_fst acc' (string_body SText r)
              | O => None
              | S k' => string_body (SUnicode k' acc') r
              end
          end
      end
  end.

(** [lit] must come next. *)
Fixpoint expect (lit s : jsstring) : option jsstring :=
  match lit, s with
  | nil, _ => Some s
  | c :: l, c' :: r => if N.eqb c c' then expect l r else None
  | _ :: _, nil => None
  end.

Fixpoint digits_value (acc : N) (d : jsstring) : N :=
  match d with
  | nil => acc
  | c :: r => digits_value (acc * 10 + (c - ch "0"))%N r
  end.

(** [k] is an array index: the canonical decimal text of an integer below
    [2^32 - 1]. *)
Definition array_index (k : jsstring) : option N :=
  match k with
  | c :: r =>
      if N.eqb c (ch "0") then match r with nil => Some 0%N | _ => None end
      else if forallb is_digit k then
        let n := digits_value 0 k in
        if (n <? 4294967295)%N then Some n else None
      else None
  | nil => None
  end.

(** The own keys of an object are enumerated ([OrdinaryOwnPropertyKeys])
    array indices first, in increasing order, then the other keys in the
    order they were created.  [key_precedes k k'] holds when a distinct
    [k] may come before [k'] in that order. *)
Definition key_precedes (k k' : jsstring) : bool :=
  match array_index k, array_index k' with
  | Some n, Some m => (n <? m)%N
  | Some _, None => true
  | None, Some _ => false
  | None, None => negb (units_eqb k k')
  end.

(** The keys are distinct and in enumeration order. *)
Fixpoint keys_ordered (ks : list jsstring) : bool :=
  match ks with
  | nil => true
  | k :: t => forallb (key_precedes k) t && keys_ordered t
  end.

Section Parse.
Context {NUM : JsNumber}.

(** Where a new key [k] is enumerated: an array index before the first
    key that is not a smaller array index, any other key last. *)
Fixpoint insert_key (k : jsstring) (x : jsval) (fs : list (jsstring * jsval))
  : list (jsstring * jsval) :=
  match fs with
  | nil => (k, x) :: nil
  | (k', y) :: t =>
      match array_index k with
      | Some n =>
          match array_index k' with
          | Some m => if (m <? n)%N then (k', y) :: insert_key k x t else (k, x) :: fs
          | None => (k, x) :: fs
          end
      | None => (k', y) :: insert_key k x t
      end
  end.

(** [CreateDataProperty(obj, k, x)], on the fields in enumeration order:
    a key already present keeps its place and takes the new value (a
    repeated key of a JSON text keeps its last value). *)
Definition obj_set (k : jsstring) (x : jsval) (fs : list (jsstring * jsval))
  : list (jsstring * jsval) :=
  if existsb (fun kv => units_eqb k (fst kv)) fs
  then map (fun kv => if units_eqb k (fst kv) then (fst kv, x) else kv) fs
  else insert_key k x fs.

Definition object_of_members (l : list (jsstring * jsval)) : list (jsstring * jsval) :=
  fold_left (fun acc kv => obj_set (fst kv) (snd kv) acc) l nil.

(** Recursive descent over a JSON text; [fuel] bounds the nesting.  Every
    array or object is a new object: it gets the reference [base] plus
    the length of the text after its opening bracket, so the objects of
    one text get distinct references from [base] on. *)
Fixpoint parse_value (base : N) (fuel : nat) (s : jsstring) : option (jsval * jsstring) :=
  match fuel with
  | O => None
  | S f =>
      match skip_ws s with
      | nil => None
      | c :: r =>
          if N.eqb c (ch "n") then
            match expect (js "ull") r with Some r' => Some (JNull, r') | None => None end
          else if N.eqb c (ch "t") then
            match expect (js "rue") r with Some r' => Some (JBool true, r') | None => None end
          else if N.eqb c (ch "f") then
            match expect (js "alse") r with Some r' => Some (JBool false, r') | None => None end
          else if N.eqb c quote then
            match string_body SText r with
            | Some (t, r') => Some (JStr t, r')
            | None => None
            end
          else if N.eqb c (ch "[") then
            let ref := (base + N.of_nat (length r))%N in
            match skip_ws r with
            | c' :: r' =>
                if N.eqb c' (ch "]") then Some (JArr ref nil, r')
                else match parse_elems base f r with
                     | Some (xs, r'') => Some (JArr ref xs, r'')
                     | None => None
                     end
            | nil => None
            end
          else if N.eqb c (ch "{") then
            let ref := (base + N.of_nat (length r))%N in
            match skip_ws r with
            | c' :: r' =>
                if N.eqb c' (ch "}") then Some (JObj ref nil, r')
                else match parse_members base f r with
                     | Some (fs, r'') => Some (JObj ref (object_of_members fs), r'')
                     | None => None
                     end
            | nil => None
            end
          else if N.eqb c (ch "-") || is_digit c then
            match read_number (c :: r) with
            | Some (lit, r') => Some (JNum (number_of_literal lit), r')
            | None => None
            end
          else None
      end
  end
with parse_elems (base : N) (fuel : nat) (s : jsstring) : option (list jsval * jsstring) :=
  match fuel with
  | O => None
  | S f =>
      match parse_value base f s with
      | None => None
      | Some (x, r) =>
          match skip_ws r with
          | c :: r' =>
              if N.eqb c comma then
                match parse_elems base f r' with
                | Some (xs, r'') => Some (x :: xs, r'')
                | None => None
                end
              else if N.eqb c (ch "]") then Some (x :: nil, r')
              else None
          | nil => None
          end
      end
  end
with parse_members (base : N) (fuel : nat) (s : jsstring)
  : option (list (jsstring * jsval) * jsstring) :=
  match fuel with
  | O => None
  | S f =>
      match skip_ws s with
      | c :: r =>
          if N.eqb c quote then
            match string_body SText r with
            | None => None
            | Some (k, r1) =>
                match skip_ws r1 with
                | c1 :: r2 =>
                    if N.eqb c1 (ch ":") then
                      match parse_value base f r2 with
                      | None => None
                      | Some (x, r3) =>
                          match skip_ws r3 with
                          | c3 :: r4 =>
                              if N.eqb c3 comma then
                                match parse_members base f r4 with
                                | Some (fs, r5) => Some ((k, x) :: fs, r5)
                                | None => None
                                end
                              else if N.eqb c3 (ch "}") then Some ((k, x) :: nil, r4)
                              else None
                          | nil => None
                          end
                      end
                    else None
                | nil => None
                end
            end
          else None
      | nil => None
      end
  end.

(** [JSON.parse text], its objects numbered from [base]; [None] is the
    [SyntaxError] it throws.  The fuel, one more than the length of the
    text, is never the limiting factor: every level of the descent
    consumes at least one code unit. *)
Definition parse (base : N) (text : jsstring) : option jsval :=
  match parse_value base (S (length text)) text with
  | Some (v, r) => match skip_ws r with nil => Some v | _ => None end
  | None => None
  end.

(** *** JSON-representable values *)

(** A value [JSON.stringify] writes without loss: no [undefined]
    anywhere, every number finite and not [-0], and the keys of every
    object distinct and in enumeration order (as those of a JavaScript
    object are).  Strings are arbitrary. *)
Fixpoint json_value (v : jsval) : bool :=
  match v with
  | JUndefined => false
  | JNum n => number_finite n && negb (number_negative_zero n)
  | JArr _ xs => forallb json_value xs
  | JObj _ fs =>
      keys_ordered (map fst fs) && forallb (fun kv => json_value (snd kv)) fs
  | _ => true
  end.

(** Number of nodes, each item counted with its separator. *)
Fixpoint size (v : jsval) : nat :=
  match v with
  | JArr _ xs => S (list_sum (map (fun x => S (size x)) xs))
  | JObj _ fs => S (list_sum (map (fun kv => S (size (snd kv))) fs))
  | _ => 1
  end.

(** The text of an array element. *)
Definition item_text (x : jsval) : jsstring :=
  match stringify x with Some t => t | None => js "null" end.

Definition member_text (kv : jsstring * jsval) : jsstring :=
  quote_json (fst kv) ++ ch ":" :: item_text (snd kv).

End Parse.

End Json.

(* ================================================================== *)
(** ** React state *)

Module React.

(** What a state setter is called with: a new value, or an updater
    ([setValue((v) => !v)]). *)
Inductive action (A : Type) : Type :=
| SetTo (a : A)
| Update (g : A -> A).
Arguments SetTo {A} a.
Arguments Update {A} g.

Definition apply_action {A : Type} (a : action A) (s : A) : A :=
  match a with SetTo x => x | Update g => g s end.

(** The setter calls of one event handler are batched: React renders
    once, with the queued actions applied in order. *)
Definition run_batch {A : Type} (acts : list (action A)) (s : A) : A :=
  fold_left (fun s a => apply_action a s) acts s.

End React.


(* ================================================================== *)
(** ** [useLocalStorage] and [useSessionStorage] *)

Module StorageHooks.
Import Js React.

Inductive scope : Type := LocalStorage | SessionStorage.

(** The two stores of the page, the log of every [setItem], and the first
    object reference not yet allocated ([JSON.parse] allocates from it). *)
Record browser : Type := {
  local : gmap jsstring jsstring;
  session : gmap jsstring jsstring;
  writes : list (scope * jsstring * jsstring);
  next_ref : N
}.

Definition store (sc : scope) (b : browser) : gmap jsstring jsstring :=
  match sc with LocalStorage => local b | SessionStorage => session b end.

(** [window.localStorage.getItem(key)]; [None] is [null]. *)
Definition getItem (sc : scope) (b : browser) (key : jsstring) : option jsstring :=
  store sc b !! key.

(** [window.localStorage.setItem(key, text)]. *)
Definition setItem (sc : scope) (b : browser) (key text : jsstring) : browser :=
  match sc with
  | LocalStorage =>
      {| local := <[key := text]> (local b); session := session b;
         writes := writes b ++ (sc, key, text) :: nil; next_ref := next_ref b |}
  | SessionStorage =>
      {| local := local b; session := <[key := text]> (session b);
         writes := writes b ++ (sc, key, text) :: nil; next_ref := next_ref b |}
  end.

(** The objects a [JSON.parse] of [text] created are allocated: their
    references lie below [next_ref b + length text + 1]. *)
Definition allocate (text : jsstring) (b : browser) : browser :=
  {| local := local b; session := session b; writes := writes b;
     next_ref := (next_ref b + N.of_nat (length text) + 1)%N |}.

(** What running a piece of JavaScript gives: a value, or an exception. *)
Inductive result (A : Type) : Type :=
| Ok (a : A)
| Throw (e : string).
Arguments Ok {A} a.
Arguments Throw {A} e.

Section Hooks.
Context {NUM : JsNumber}.

(** The lazy initializer of [useState]:
    [const item = getItem(key); return item ? JSON.parse(item) : initialValue;]
    A failing [JSON.parse] throws [SyntaxError] out of the render. *)
Definition read_initial (sc : scope) (b : browser) (key : jsstring) (initialValue : jsval)
  : result (jsval * browser) :=
  match getItem sc b key with
  | Some item =>
      if truthy_string item then
        match Json.parse (next_ref b) item with
        | Some v => Ok (v, allocate item b)
        | None => Throw "SyntaxError"
        end
      else Ok (initialValue, b)
  | None => Ok (initialValue, b)
  end.

(** The effect [setItem(key, JSON.stringify(value))]. *)
Definition persist (sc : scope) (key : jsstring) (value : jsval) (b : browser) : browser :=
  setItem sc b key (Json.stored_text (Json.stringify value)).

(** A mounted instance: its key and its state [value]. *)
Record instance : Type := {
  key : jsstring;
  value : jsval
}.

(** Acquisition: the first render, then its commit, where the effect runs
    because a mount runs every effect. *)
Definition acquire (sc : scope) (k : jsstring) (initialValue : jsval) (b : browser)
  : result (instance * browser) :=
  match read_initial sc b k initialValue with
  | Ok (v, b') => Ok ({| key := k; value := v |}, persist sc k v b')
  | Throw e => Throw e
  end.

(** One batch of [setValue] calls (the calls of one event handler).  When
    the result is [Object.is] the current state, React keeps the state
    and does not commit: no effect runs and nothing is written.  The state
    is then the same object (or an equal primitive), which an updater may
    have mutated: its contents are those of the result.  Otherwise React
    commits, and the effect, whose dependency [[value]] changed, writes
    the store. *)
Definition setValue (sc : scope) (acts : list (action jsval)) (i : instance) (b : browser)
  : instance * browser :=
  let v' := run_batch acts (value i) in
  if object_is (value i) v' then ({| key := key i; value := v' |}, b)
  else ({| key := key i; value := v' |}, persist sc (key i) v' b).

Fixpoint run_batches (sc : scope) (bs : list (list (action jsval))) (i : instance)
    (b : browser) : instance * browser :=
  match bs with
  | nil => (i, b)
  | acts :: bs' =>
      let (i', b') := setValue sc acts i b in run_batches sc bs' i' b'
  end.

(** [useLocalStorage(key, initialValue)] and [useSessionStorage(key,
    initialValue)]: the two functions have the same body over
    [window.localStorage] and [window.sessionStorage]. *)
Definition useLocalStorage (k : jsstring) (initialValue : jsval) (b : browser)
  : result (instance * browser) := acquire LocalStorage k initialValue b.

Definition useSessionStorage (k : jsstring) (initialValue : jsval) (b : browser)
  : result (instance * browser) := acquire SessionStorage k initialValue b.

(** How many of the batches [bs], run from the state [v], end with a
    value that is not [Object.is] the state before them. *)
Fixpoint changed_batches (bs : list (list (action jsval))) (v : jsval) : nat :=
  match bs with
  | nil => 0
  | acts :: bs' =>
      let v' := run_batch acts v in
      (if object_is v v' then 0 else 1) + changed_batches bs' v'
  end.

End Hooks.

Definition empty_browser : browser :=
  {| local := ∅; session := ∅; writes := nil; next_ref := 0 |}.

End StorageHooks.

(* ================================================================== *)
(** ** [useBoolean] *)

Module BooleanHook.
Import React.

(** [useBoolean(initialValue = false)]: [None] is an omitted (or
    [undefined]) argument, which takes the default. *)
Definition useBoolean (initialValue : option bool) : bool :=
  match initialValue with Some b => b | None => false end.

(** [setTrue = () => setValue(true)] *)
Definition setTrue : action bool := SetTo true.
(** [setFalse = () => setValue(false)] *)
Definition setFalse : action bool := SetTo false.
(** [toggle = () => setValue((v) => !v)] *)
Definition toggle : action bool := Update negb.

End BooleanHook.

(* ================================================================== *)
(** ** [useCopyToClipboard] *)

Module CopyHook.

(** The instance with the page's clock and timer queue.  [timers] holds the
    due times of the pending [setTimeout] callbacks of this instance, in
    firing order; each callback is [() => setIsCopied(false)].
    [late_updates] counts setter calls made after the instance was released. *)
Record world : Type := {
  now : Z;
  isCopied : bool;
  mounted : bool;
  timers : list Z;
  clipboard : list string;
  late_updates : nat
}.

Definition with_timers (ts : list Z) (w : world) : world :=
  {| now := now w; isCopied := isCopied w; mounted := mounted w; timers := ts;
     clipboard := clipboard w; late_updates := late_updates w |}.

Definition with_isCopied (b : bool) (w : world) : world :=
  {| now := now w; isCopied := b; mounted := mounted w; timers := timers w;
     clipboard := clipboard w; late_updates := late_updates w |}.

Definition with_now (t : Z) (w : world) : world :=
  {| now := t; isCopied := isCopied w; mounted := mounted w; timers := timers w;
     clipboard := clipboard w; late_updates := late_updates w |}.

(** Timers with equal due times fire in the order they were set. *)
Fixpoint insert_timer (t : Z) (ts : list Z) : list Z :=
  match ts with
  | nil => t :: nil
  | u :: us => if Z.ltb t u then t :: ts else u :: insert_timer t us
  end.

(** The WebIDL conversion of the delay to [long]: modulo [2^32], read as
    a signed 32-bit integer. *)
Definition to_long (d : Z) : Z :=
  let m := (d mod 2 ^ 32)%Z in if Z.leb (2 ^ 31) m then (m - 2 ^ 32)%Z else m.

(** [setTimeout(cb, delay)]: the delay is converted to [long], and a
    negative delay counts as 0 (so a delay of [2^31] ms or more wraps). *)
Definition setTimeout (delay : Z) (w : world) : world :=
  with_timers (insert_timer (now w + Z.max 0 (to_long delay)) (timers w)) w.

(** The effect [if (isCopied) setTimeout(() => setIsCopied(false), timeout)],
    run after a commit that changed [isCopied]; it returns no cleanup. *)
Definition copied_effect (timeout : Z) (w : world) : world :=
  if isCopied w then setTimeout timeout w else w.

(** [setIsCopied(b)]: no commit when [b] is the current state; after
    release React drops the update. *)
Definition setIsCopied (timeout : Z) (b : bool) (w : world) : world :=
  if mounted w then
    if Bool.eqb (isCopied w) b then w
    else copied_effect timeout (with_isCopied b w)
  else
    {| now := now w; isCopied := isCopied w; mounted := mounted w;
       timers := timers w; clipboard := clipboard w;
       late_updates := S (late_updates w) |}.

(** [copyToClipboard(text)]: [navigator.clipboard.writeText(text);
    setIsCopied(true)]. *)
Definition copyToClipboard (timeout : Z) (text : string) (w : world) : world :=
  setIsCopied timeout true
    {| now := now w; isCopied := isCopied w; mounted := mounted w;
       timers := timers w; clipboard := clipboard w ++ text :: nil;
       late_updates := late_updates w |}.

(** Letting the clock run to [t]: the due callbacks fire in order. *)
Fixpoint advance_fuel (timeout : Z) (fuel : nat) (t : Z) (w : world) : world :=
  match fuel with
  | O => with_now t w
  | S fuel' =>
      match timers w with
      | due :: rest =>
          if Z.leb due t then
            advance_fuel timeout fuel' t
              (setIsCopied timeout false (with_now due (with_timers rest w)))
          else with_now t w
      | nil => with_now t w
      end
  end.

Definition advance (timeout : Z) (t : Z) (w : world) : world :=
  advance_fuel timeout (length (timers w)) t w.

(** [useCopyToClipboard(timeout)] mounted at time [t0]: the state is
    [false] and the mount run of the effect schedules nothing. *)
Definition useCopyToClipboard (timeout : Z) (t0 : Z) : world :=
  copied_effect timeout
    {| now := t0; isCopied := false; mounted := true; timers := nil;
       clipboard := nil; late_updates := 0 |}.

(** Release: the effect registered no cleanup, so nothing is removed. *)
Definition release (w : world) : world :=
  {| now := now w; isCopied := isCopied w; mounted := false; timers := timers w;
     clipboard := clipboard w; late_updates := late_updates w |}.

Inductive event : Type :=
| Copy (t : Z) (text : string)
| Release (t : Z)
| Wait (t : Z).

Definition step (timeout : Z) (w : world) (e : event) : world :=
  match e with
  | Copy t text => copyToClipboard timeout text (advance timeout t w)
  | Release t => release (advance timeout t w)
  | Wait t => advance timeout t w
  end.

Definition run (timeout : Z) (es : list event) (w : world) : world :=
  fold_left (step timeout) es w.

End CopyHook.

(* ================================================================== *)
(** ** Event-backed hooks: [useWindowSize], [useWindowScroll],
       [useMousePosition], [useMediaQuery], [useDarkMode] *)

Module EventHooks.

(** Where a listener is added: [window], or the [MediaQueryList] returned by
    [window.matchMedia(query)]. *)
Inductive target : Type :=
| Window
| MediaQueryList (query : string).

Definition target_eqb (a b : target) : bool :=
  match a, b with
  | Window, Window => true
  | MediaQueryList q, MediaQueryList q' => String.eqb q q'
  | _, _ => false
  end.

(** A registered handler: its target, its event type and the hook instance
    whose effect created it (each effect run makes a fresh closure). *)
Record listener : Type := {
  ltarget : target;
  levent : string;
  lowner : nat
}.

Definition listener_eqb (a b : listener) : bool :=
  target_eqb (ltarget a) (ltarget b) && String.eqb (levent a) (levent b)
  && Nat.eqb (lowner a) (lowner b).

Record page : Type := {
  innerWidth : Q;
  innerHeight : Q;
  scrollX : Q;
  scrollY : Q;
  matchMedia : string -> bool;
  listeners : list listener
}.

Definition with_listeners (ls : list listener) (p : page) : page :=
  {| innerWidth := innerWidth p; innerHeight := innerHeight p;
     scrollX := scrollX p; scrollY := scrollY p; matchMedia := matchMedia p;
     listeners := ls |}.

Definition addEventListener (t : target) (ev : string) (owner : nat) (p : page) : page :=
  with_listeners (listeners p ++ {| ltarget := t; levent := ev; lowner := owner |} :: nil) p.

Definition removeEventListener (t : target) (ev : string) (owner : nat) (p : page) : page :=
  let l := {| ltarget := t; levent := ev; lowner := owner |} in
  with_listeners (List.filter (fun l' => negb (listener_eqb l l')) (listeners p)) p.

(** A hook as React runs it: the [useState] initial value read at the first
    render, the mount effect (an optional state update and the page after
    it), and the cleanup of that effect, run at release. *)
Record hook (A : Type) : Type := {
  initial : page -> A;
  mount_effect : nat -> page -> option A * page;
  cleanup : nat -> page -> page
}.
Arguments initial {A} h p.
Arguments mount_effect {A} h owner p.
Arguments cleanup {A} h owner p.

(** What acquisition gives: the value returned by the first render, the
    value once the mount effect's update (if any) is rendered, and the page. *)
Record acquired (A : Type) : Type := {
  first_value : A;
  settled_value : A;
  after_mount : page
}.
Arguments first_value {A} a.
Arguments settled_value {A} a.
Arguments after_mount {A} a.

Definition acquire {A : Type} (h : hook A) (owner : nat) (p : page) : acquired A :=
  let v0 := initial h p in
  let (upd, p') := mount_effect h owner p in
  {| first_value := v0;
     settled_value := match upd with Some v => v | None => v0 end;
     after_mount := p' |}.

Definition release {A : Type} (h : hook A) (owner : nat) (p : page) : page :=
  cleanup h owner p.

Definition Qhalf (q : Q) : Q := Qdiv q (inject_Z 2).

(** [useWindowSize]: [{width: window.innerWidth, height: window.innerHeight}],
    one [resize] listener. *)
Definition useWindowSize : hook (Q * Q) := {|
  initial := fun p => (innerWidth p, innerHeight p);
  mount_effect := fun o p => (None, addEventListener Window "resize" o p);
  cleanup := fun o p => removeEventListener Window "resize" o p |}.

(** [useWindowScroll]: [{scrollX, scrollY}], one [scroll] listener. *)
Definition useWindowScroll : hook (Q * Q) := {|
  initial := fun p => (scrollX p, scrollY p);
  mount_effect := fun o p => (None, addEventListener Window "scroll" o p);
  cleanup := fun o p => removeEventListener Window "scroll" o p |}.

(** [useMousePosition]: starts at [{x: innerWidth / 2, y: innerHeight / 2}],
    one [mousemove] listener. *)
Definition useMousePosition : hook (Q * Q) := {|
  initial := fun p => (Qhalf (innerWidth p), Qhalf (innerHeight p));
  mount_effect := fun o p => (None, addEventListener Window "mousemove" o p);
  cleanup := fun o p => removeEventListener Window "mousemove" o p |}.

(** [useMediaQuery(query)]: starts at [false]; the effect sets
    [mediaQuery.matches] and adds one [change] listener. *)
Definition useMediaQuery (query : string) : hook bool := {|
  initial := fun _ => false;
  mount_effect := fun o p =>
    (Some (matchMedia p query),
     addEventListener (MediaQueryList query) "change" o p);
  cleanup := fun o p => removeEventListener (MediaQueryList query) "change" o p |}.

Definition dark_query : string := "(prefers-color-scheme: dark)".

(** [useDarkMode]: starts at [false]; the effect sets the [matches] of the
    dark-scheme query; it adds no listener and returns no cleanup. *)
Definition useDarkMode : hook bool := {|
  initial := fun _ => false;
  mount_effect := fun _ p => (Some (matchMedia p dark_query), p);
  cleanup := fun _ p => p |}.

End EventHooks.

(* ================================================================== *)
(** ** [useGeolocation] *)

Module GeoHook.

(** [new Error("GEOLOCATION_NOT_SUPPORTED")], or the
    [GeolocationPositionError] given to the error callback. *)
Inductive geo_error : Type :=
| NotSupported
| PositionError (code : Z).

Definition position : Type := (Z * Z)%type.

Record geo_state : Type := {
  loading : bool;
  error : option geo_error;
  data : option position
}.

(** The instance with the platform: whether [navigator.geolocation] exists,
    the number of [getCurrentPosition] calls, and the calls whose callback
    has not been invoked yet. *)
Record world : Type := {
  state : geo_state;
  has_geolocation : bool;
  calls : nat;
  waiting : nat
}.

Inductive outcome : Type :=
| Success (p : position)
| Failure (code : Z).

Definition initial_state : geo_state :=
  {| loading := true; error := None; data := None |}.

(** The effect, with dependencies [[]]: it runs once, at mount. *)
Definition geo_effect (w : world) : world :=
  if negb (has_geolocation w) then
    {| state := {| loading := false; error := Some NotSupported; data := None |};
       has_geolocation := has_geolocation w; calls := calls w; waiting := waiting w |}
  else
    {| state := state w; has_geolocation := has_geolocation w;
       calls := S (calls w); waiting := S (waiting w) |}.

Definition useGeolocation (supported : bool) : world :=
  geo_effect {| state := initial_state; has_geolocation := supported;
                calls := 0; waiting := 0 |}.

(** The platform invokes one callback of a waiting call, once. *)
Definition deliver (w : world) (o : outcome) : world :=
  match waiting w with
  | O => w
  | S n =>
      let s := match o with
               | Success p => {| loading := false; error := None; data := Some p |}
               | Failure c => {| loading := false; error := Some (PositionError c);
                                 data := None |}
               end in
      {| state := s; has_geolocation := has_geolocation w; calls := calls w;
         waiting := n |}
  end.

(** Later renders do not run the effect again (its dependencies are
    [[]]); only the platform acts. *)
Definition run (os : list outcome) (w : world) : world := fold_left deliver os w.

End GeoHook.

(* ================================================================== *)
(** ** The setters of [useDarkMode] *)

Module DarkModeHook.
Import React.

(** [toogle = () => setIsDarkMode((v) => !v)] *)
Definition toogle : action bool := Update negb.
(** [enable = () => setIsDarkMode(true)] *)
Definition enable : action bool := SetTo true.
(** [disable = () => setIsDarkMode(false)] *)
Definition disable : action bool := SetTo false.

End DarkModeHook.

(* ================================================================== *)
(** ** A number system for the examples

    The examples below take, as the numbers of the values they use, the
    integers with their decimal text: the safe integers of JavaScript, with
    [Number::toString] and [StringToNumber] restricted to them, satisfy the
    laws of [JsNumber].  The theorems themselves hold for every number
    system with those laws. *)

Module IntNumber.
Import Js.

Definition uint_unit (u : Decimal.uint) : jsstring :=
  match u with
  | Decimal.Nil => nil
  | Decimal.D0 _ => ch "0" :: nil | Decimal.D1 _ => ch "1" :: nil
  | Decimal.D2 _ => ch "2" :: nil | Decimal.D3 _ => ch "3" :: nil
  | Decimal.D4 _ => ch "4" :: nil | Decimal.D5 _ => ch "5" :: nil
  | Decimal.D6 _ => ch "6" :: nil | Decimal.D7 _ => ch "7" :: nil
  | Decimal.D8 _ => ch "8" :: nil | Decimal.D9 _ => ch "9" :: nil
  end.

Fixpoint uint_units (u : Decimal.uint) : jsstring :=
  match u with
  | Decimal.Nil => nil
  | Decimal.D0 u' | Decimal.D1 u' | Decimal.D2 u' | Decimal.D3 u' | Decimal.D4 u'
  | Decimal.D5 u' | Decimal.D6 u' | Decimal.D7 u' | Decimal.D8 u' | Decimal.D9 u' =>
      uint_unit u ++ uint_units u'
  end.

Fixpoint units_uint (s : jsstring) : Decimal.uint :=
  match s with
  | nil => Decimal.Nil
  | c :: r =>
      let u := units_uint r in
      if N.eqb c (ch "0") then Decimal.D0 u else if N.eqb c (ch "1") then Decimal.D1 u
      else if N.eqb c (ch "2") then Decimal.D2 u else if N.eqb c (ch "3") then Decimal.D3 u
      else if N.eqb c (ch "4") then Decimal.D4 u else if N.eqb c (ch "5") then Decimal.D5 u
      else if N.eqb c (ch "6") then Decimal.D6 u else if N.eqb c (ch "7") then Decimal.D7 u
      else if N.eqb c (ch "8") then Decimal.D8 u else if N.eqb c (ch "9") then Decimal.D9 u
      else Decimal.Nil
  end.

(** The decimal text of an integer. *)
Definition int_text (n : Z) : jsstring :=
  (if Z.ltb n 0 then ch "-" :: nil else nil) ++ uint_units (N.to_uint (Z.to_N (Z.abs n))).

(** The integer a number token denotes (its integer part: the texts
    [int_text] writes have no other). *)
Definition int_of_literal (s : jsstring) : Z :=
  match s with
  | c :: r =>
      if N.eqb c (ch "-") then - Z.of_N (N.of_uint (units_uint (fst (digits r))))
      else Z.of_N (N.of_uint (units_uint (fst (digits s))))
  | nil => 0
  end.

Lemma units_uint_units (u : Decimal.uint) : units_uint (uint_units u) = u.
Proof. induction u; cbn; rewrite ?IHu; reflexivity. Qed.

Lemma digits_uint_units (u : Decimal.uint) (s : jsstring) :
  match s with c :: _ => is_digit c = false | nil => True end ->
  digits (uint_units u ++ s) = (uint_units u, s).
Proof.
  intros Hs. induction u; cbn [uint_units uint_unit app];
    try (cbn [digits]; rewrite IHu; reflexivity).
  destruct s as [|c s]; [reflexivity|]. cbn. rewrite Hs. reflexivity.
Qed.

Lemma to_uint_unorm (m : N) : N.to_uint m = Decimal.unorm (N.to_uint m).
Proof. rewrite <- DecimalN.Unsigned.to_of, DecimalN.Unsigned.of_to. reflexivity. Qed.

Lemma to_uint_not_nil (m : N) : N.to_uint m <> Decimal.Nil.
Proof. rewrite to_uint_unorm. apply unorm_nonnil. Qed.

Lemma to_uint_no_leading_zero (m : N) (d : Decimal.uint) :
  N.to_uint m = Decimal.D0 d -> d = Decimal.Nil.
Proof.
  intros H. pose proof (to_uint_unorm m) as E. rewrite H in E.
  destruct (Decimal.nzhead (Decimal.D0 d)) eqn:Z;
    [apply unorm_0 in Z; rewrite Z in E; congruence | ..];
    exfalso; rewrite unorm_nzhead in E by (rewrite Z; discriminate);
      rewrite Z in E; first [exact (nzhead_nonzero _ _ Z) | discriminate].
Qed.

(** The decimal text of [m], and its first code unit, a digit. *)
Lemma uint_text_head (m : N) :
  exists c t, uint_units (N.to_uint m) = c :: t /\ is_digit c = true /\
    (N.eqb c (ch "0") = true -> t = nil) /\ digits t = (t, nil).
Proof.
  pose proof (to_uint_not_nil m) as Hn. pose proof (to_uint_no_leading_zero m) as Hz.
  pose proof (digits_uint_units) as D.
  destruct (N.to_uint m) as [| d | d | d | d | d | d | d | d | d | d]; [congruence|..];
    eexists _, _; (split; [reflexivity|]); (split; [reflexivity|]);
    (split; [ | specialize (D d nil I); rewrite app_nil_r in D; exact D]);
    intros E; try discriminate E.
  specialize (Hz d eq_refl). subst d. reflexivity.
Qed.

Lemma int_text_literal (n : Z) : number_literal (int_text n) = true.
Proof.
  unfold int_text, number_literal, read_number.
  destruct (uint_text_head (Z.to_N (Z.abs n))) as (c & t & E & Hc & H0 & Ht).
  assert (Hm : N.eqb c (ch "-") = false).
  { apply N.eqb_neq. intros ->. discriminate Hc. }
  destruct (Z.ltb n 0); cbn [app]; rewrite E; [rewrite N.eqb_refl | rewrite Hm];
    unfold read_int; cbn beta iota zeta;
    destruct (N.eqb c (ch "0")) eqn:E0;
    try (rewrite (H0 eq_refl); reflexivity); rewrite Hc, Ht; reflexivity.
Qed.

Lemma int_round_trip (n : Z) : int_of_literal (int_text n) = n.
Proof.
  unfold int_text, int_of_literal.
  destruct (uint_text_head (Z.to_N (Z.abs n))) as (c & t & E & Hc & _ & _).
  assert (Hm : N.eqb c (ch "-") = false).
  { apply N.eqb_neq. intros ->. discriminate Hc. }
  pose proof (digits_uint_units (N.to_uint (Z.to_N (Z.abs n))) nil I) as D.
  rewrite app_nil_r in D.
  destruct (Z.ltb_spec n 0) as [Hn|Hn]; cbn [app].
  - rewrite N.eqb_refl, D. cbn [fst].
    rewrite units_uint_units, DecimalN.Unsigned.of_to, Z2N.id by lia. lia.
  - rewrite E, Hm, <- E, D. cbn [fst].
    rewrite units_uint_units, DecimalN.Unsigned.of_to, Z2N.id by lia. lia.
Qed.

#[export] Instance int_number : JsNumber := {|
  number := Z;
  number_is := Z.eqb;
  number_finite := fun _ => true;
  number_negative_zero := fun _ => false;
  number_to_string := int_text;
  number_of_literal := int_of_literal;
  number_is_spec := Z.eqb_eq;
  number_to_string_literal := fun n _ => int_text_literal n;
  number_literal_round_trip := fun n _ _ => int_round_trip n
|}.

(** The number [z] of the examples. *)
Definition num (z : Z) : @number int_number := z.

End IntNumber.

(* ================================================================== *)
(** ** Events delivered to the event-backed hooks, and [useWindowResize] *)

Module EventDispatch.
Import EventHooks.

(** Whether the handler that instance [owner] added for [ev] on [t] is
    still registered: the browser calls exactly the registered ones. *)
Definition registered (t : target) (ev : string) (owner : nat) (p : page) : bool :=
  existsb (listener_eqb {| ltarget := t; levent := ev; lowner := owner |}) (listeners p).

(** An event [ev] on [t]: when the instance's handler is registered, it
    sets the state to [next]; otherwise the state stays. *)
Definition on_event {A : Type} (t : target) (ev : string) (owner : nat) (p : page)
    (next : A) (s : A) : A :=
  if registered t ev owner p then next else s.

(** [resize]: [setSize({width: window.innerWidth, height: window.innerHeight})],
    read from the page as the event fires. *)
Definition resize_size (owner : nat) (p : page) (s : Q * Q) : Q * Q :=
  on_event Window "resize" owner p (innerWidth p, innerHeight p) s.

(** [scroll]: [setScroll({scrollX: window.scrollX, scrollY: window.scrollY})]. *)
Definition scroll_position (owner : nat) (p : page) (s : Q * Q) : Q * Q :=
  on_event Window "scroll" owner p (scrollX p, scrollY p) s.

(** [mousemove]: [setPosition({x: e.clientX, y: e.clientY})]. *)
Definition mousemove_position (owner : nat) (p : page) (clientX clientY : Q)
    (s : Q * Q) : Q * Q :=
  on_event Window "mousemove" owner p (clientX, clientY) s.

(** [change] on the [MediaQueryList] of [query]: [setIsMatch(e.matches)]. *)
Definition media_change (query : string) (owner : nat) (p : page) (matches : bool)
    (s : bool) : bool :=
  on_event (MediaQueryList query) "change" owner p matches s.

(** [useWindowResize(callback)]: no state; one [resize] listener on
    [window] whose handler calls [callback()]. *)
Definition useWindowResize : hook unit := {|
  initial := fun _ => tt;
  mount_effect := fun o p => (None, addEventListener Window "resize" o p);
  cleanup := fun o p => removeEventListener Window "resize" o p |}.

(** The number of [callback()] calls after one [resize] event, from [n]. *)
Definition resize_callback_calls (owner : nat) (p : page) (n : nat) : nat :=
  if registered Window "resize" owner p then S n else n.

End EventDispatch.

(* ================================================================== *)
(** ** [usePrevious] *)

Module PreviousHook.
Import Js.

Section Previous.
Context {NUM : JsNumber}.

(** The ref [ref.current] and the dependency [[value]] of the last run of
    the effect ([None] before the first commit). *)
Record cell : Type := {
  current : jsval;
  deps : option jsval
}.

(** [React.useRef()]: [current] is [undefined]. *)
Definition usePrevious_mount : cell := {| current := JUndefined; deps := None |}.

(** One render with [value], then its commit: the render returns
    [ref.current]; the effect [ref.current = value] runs at the first commit
    and whenever [value] is not [Object.is] the dependency of the last run.
    React runs the pending effects before it starts the next render.  When
    the effect is skipped, [value] is the object React compared (possibly
    mutated since) or an equal primitive, and so is [ref.current]: the
    cell then holds [value] as well. *)
Definition usePrevious_render (value : jsval) (c : cell) : jsval * cell :=
  let out := current c in
  let c' := match deps c with
            | Some d => if object_is d value then {| current := value; deps := Some value |}
                        else {| current := value; deps := Some value |}
            | None => {| current := value; deps := Some value |}
            end in
  (out, c').

(** The values [usePrevious] returns over renders with [values]. *)
Fixpoint usePrevious_run (values : list jsval) (c : cell) : list jsval :=
  match values with
  | nil => nil
  | v :: vs => let (out, c') := usePrevious_render v c in out :: usePrevious_run vs c'
  end.

End Previous.

End PreviousHook.

(* ================================================================== *)
(** ** [JSON.parse] reads back [JSON.stringify] *)

Module JsonFacts.
Import Js Json.

(** The code units of the characters the proofs meet. *)
Lemma ch_values :
  ch "0" = 48%N /\ ch "9" = 57%N /\ ch "-" = 45%N /\ ch "." = 46%N /\
  ch "e" = 101%N /\ ch "E" = 69%N /\ ch "+" = 43%N /\ ch "n" = 110%N /\
  ch "t" = 116%N /\ ch "f" = 102%N /\ ch "[" = 91%N /\ ch "]" = 93%N /\
  ch "{" = 123%N /\ ch "}" = 125%N /\ ch ":" = 58%N /\ ch "u" = 117%N /\
  ch "b" = 98%N /\ ch "r" = 114%N /\ ch "/" = 47%N.
Proof. repeat split; reflexivity. Qed.

Ltac units :=
  let H := fresh in
  pose proof ch_values as H;
  repeat (let E := fresh in destruct H as [E H]; rewrite ?E in *; clear E);
  rewrite ?H in *; clear H;
  unfold quote, backslash, comma, is_digit, is_ws, is_high_surrogate,
    is_low_surrogate in *.

Lemma eqb_false (a b : N) : a <> b -> N.eqb a b = false.
Proof. apply N.eqb_neq. Qed.

(** *** String literals *)

Lemma hex_val_digit (d : N) : (d < 16)%N -> hex_val (hex_digit d) = Some d.
Proof.
  intros H. unfold hex_digit, hex_val. units.
  destruct (N.ltb_spec d 10).
  - replace ((48 <=? 48 + d) && (48 + d <=? 57))%N with true
      by (symmetry; apply andb_true_iff; split; apply N.leb_le; lia).
    f_equal. lia.
  - replace ((48 <=? 87 + d) && (87 + d <=? 57))%N with false
      by (symmetry; apply andb_false_iff; right; apply N.leb_gt; lia).
    replace ((97 <=? 87 + d) && (87 + d <=? 102))%N with true
      by (symmetry; apply andb_true_iff; split; apply N.leb_le; lia).
    f_equal. lia.
Qed.

Lemma hex_reassemble (c : N) : (c < 65536)%N ->
  ((((0 * 16 + c / 4096 mod 16) * 16 + c / 256 mod 16) * 16 + c / 16 mod 16) * 16
   + c mod 16 = c)%N.
Proof.
  intros H.
  assert (E1 : (c / 256 = c / 16 / 16)%N) by (rewrite N.Div0.div_div; reflexivity).
  assert (E2 : (c / 4096 = c / 16 / 16 / 16)%N) by (rewrite !N.Div0.div_div; reflexivity).
  rewrite E1, E2.
  pose proof (N.div_mod c 16 ltac:(lia)).
  pose proof (N.div_mod (c / 16) 16 ltac:(lia)).
  pose proof (N.div_mod (c / 16 / 16) 16 ltac:(lia)).
  assert (c / 16 / 16 / 16 < 16)%N
    by (rewrite !N.Div0.div_div; apply N.Div0.div_lt_upper_bound; lia).
  rewrite (N.mod_small (c / 16 / 16 / 16)) by lia. lia.
Qed.

(** A [\uXXXX] escape reads back as its code unit. *)
Lemma string_body_unicode (c : N) (t : jsstring) : (c < 65536)%N ->
  string_body SText (unicode_escape c ++ t) = cons_fst c (string_body SText t).
Proof.
  intros H. unfold unicode_escape. cbn [app string_body].
  change (N.eqb backslash quote) with false. change (N.eqb backslash backslash) with true.
  cbn iota. change (simple_unescape (ch "u")) with (@None N).
  change (N.eqb (ch "u") (ch "u")) with true. cbn iota.
  rewrite !hex_val_digit by (apply N.mod_lt; lia).
  cbn beta iota zeta. rewrite hex_reassemble by exact H. reflexivity.
Qed.

(** A code unit written by [escape_unit] reads back as itself. *)
Lemma string_body_unit (c : N) (t : jsstring) : (c < 65536)%N ->
  string_body SText (escape_unit c ++ t) = cons_fst c (string_body SText t).
Proof.
  intros Hc. unfold escape_unit.
  destruct (N.eqb_spec c 8) as [->|N8]; [reflexivity|].
  destruct (N.eqb_spec c 9) as [->|N9]; [reflexivity|].
  destruct (N.eqb_spec c 10) as [->|N10]; [reflexivity|].
  destruct (N.eqb_spec c 12) as [->|N12]; [reflexivity|].
  destruct (N.eqb_spec c 13) as [->|N13]; [reflexivity|].
  destruct (N.eqb_spec c quote) as [->|Nq]; [reflexivity|].
  destruct (N.eqb_spec c backslash) as [->|Nb]; [reflexivity|].
  destruct (N.ltb_spec c 32) as [L|L]; [apply string_body_unicode, Hc|].
  cbn [app string_body]. rewrite (eqb_false _ _ Nq), (eqb_false _ _ Nb).
  replace (c <? 32)%N with false by (symmetry; apply N.ltb_ge; exact L).
  reflexivity.
Qed.

(** A surrogate is copied as it is. *)
Lemma string_body_raw (c : N) (t : jsstring) : (55296 <= c <= 57343)%N ->
  string_body SText (c :: t) = cons_fst c (string_body SText t).
Proof.
  intros H. cbn [string_body].
  rewrite (eqb_false c quote) by (unfold quote; lia).
  rewrite (eqb_false c backslash) by (unfold backslash; lia).
  replace (c <? 32)%N with false by (symmetry; apply N.ltb_ge; lia).
  reflexivity.
Qed.

Lemma escape_round_trip_n (n : nat) :
  forall (s t : jsstring), (length s <= n)%nat ->
  string_body SText (escape_units s ++ quote :: t) = Some (s, t).
Proof.
  induction n as [|n IH]; intros s t Hn.
  - destruct s; [reflexivity | cbn in Hn; lia].
  - destruct s as [|c r]; [reflexivity|]. cbn [length] in Hn.
    cbn [escape_units].
    destruct (is_high_surrogate c) eqn:Hh.
    + unfold is_high_surrogate in Hh. apply andb_prop in Hh as [H1 H2].
      apply N.leb_le in H1, H2.
      destruct r as [|d r'].
      * rewrite string_body_unicode by lia. reflexivity.
      * destruct (is_low_surrogate d) eqn:Hl.
        -- unfold is_low_surrogate in Hl. apply andb_prop in Hl as [L1 L2].
           apply N.leb_le in L1, L2.
           cbn [app]. rewrite string_body_raw by lia. rewrite string_body_raw by lia.
           rewrite IH by (cbn in Hn; lia). reflexivity.
        -- rewrite <- app_assoc. rewrite string_body_unicode by lia.
           rewrite IH by lia. reflexivity.
    + destruct (is_low_surrogate c) eqn:Hl.
      * unfold is_low_surrogate in Hl. apply andb_prop in Hl as [L1 L2].
        apply N.leb_le in L1, L2.
        rewrite <- app_assoc. rewrite string_body_unicode by lia.
        rewrite IH by lia. reflexivity.
      * destruct (N.ltb_spec c 65536) as [Lc|Lc].
        -- rewrite <- app_assoc, string_body_unit by exact Lc.
           rewrite IH by lia. reflexivity.
        -- (* not a UTF-16 code unit: copied as it is *)
           unfold escape_unit.
           rewrite (eqb_false c 8), (eqb_false c 9), (eqb_false c 10), (eqb_false c 12),
             (eqb_false c 13), (eqb_false c quote), (eqb_false c backslash)
             by (unfold quote, backslash; lia).
           replace (c <? 32)%N with false by (symmetry; apply N.ltb_ge; lia).
           cbn [app string_body].
           rewrite (eqb_false c quote), (eqb_false c backslash)
             by (unfold quote, backslash; lia).
           replace (c <? 32)%N with false by (symmetry; apply N.ltb_ge; lia).
           rewrite IH by lia. reflexivity.
Qed.

(** [QuoteJSONString] reads back as the string it quoted. *)
Lemma escape_round_trip (s t : jsstring) :
  string_body SText (escape_units s ++ quote :: t) = Some (s, t).
Proof. apply (escape_round_trip_n (length s)). lia. Qed.

(** *** Number tokens *)

(** A code unit that may continue a number token. *)
Definition continues_number (c : N) : bool :=
  is_digit c || N.eqb c (ch ".") || N.eqb c (ch "e") || N.eqb c (ch "E").

Definition num_stop (s : jsstring) : bool :=
  match s with nil => true | c :: _ => negb (continues_number c) end.

Lemma num_stop_digit (s : jsstring) (c : N) (r : jsstring) :
  num_stop s = true -> s = c :: r -> is_digit c = false.
Proof.
  intros H ->. cbn in H. unfold continues_number in H.
  destruct (is_digit c); [discriminate H | reflexivity].
Qed.

Lemma digits_app (a s : jsstring) : num_stop s = true ->
  digits (a ++ s) = (fst (digits a), (snd (digits a) ++ s)%list).
Proof.
  intros Hs. induction a as [|c a IH].
  - destruct s as [|c r]; [reflexivity|].
    cbn. rewrite (num_stop_digit _ c r Hs eq_refl). reflexivity.
  - cbn [app digits]. destruct (is_digit c); [|reflexivity].
    rewrite IH. destruct (digits a). reflexivity.
Qed.

Lemma read_int_app (a s i r : jsstring) : num_stop s = true ->
  read_int a = Some (i, r) -> read_int (a ++ s) = Some (i, (r ++ s)%list).
Proof.
  intros Hs E. destruct a as [|c a]; [discriminate E|].
  cbn [app read_int] in E |- *. destruct (N.eqb c (ch "0")).
  - injection E as <- <-. reflexivity.
  - destruct (is_digit c); [|discriminate E].
    rewrite digits_app by exact Hs. destruct (digits a). injection E as <- <-. reflexivity.
Qed.

Lemma read_frac_app (a s fr r : jsstring) : num_stop s = true ->
  read_frac a = Some (fr, r) -> read_frac (a ++ s) = Some (fr, (r ++ s)%list).
Proof.
  intros Hs E. destruct a as [|c a].
  - cbn in E. injection E as <- <-. destruct s as [|c r]; [reflexivity|].
    cbn in Hs |- *. unfold continues_number in Hs.
    destruct (N.eqb c (ch ".")); [rewrite orb_true_r in Hs; discriminate Hs|].
    reflexivity.
  - cbn [app read_frac] in *. destruct (N.eqb c (ch ".")); [|injection E as <- <-; reflexivity].
    rewrite digits_app by exact Hs. destruct (digits a) as [[|d ds] r'];
      [discriminate E | injection E as <- <-; reflexivity].
Qed.

Lemma read_exp_app (a s e r : jsstring) : num_stop s = true ->
  read_exp a = Some (e, r) -> read_exp (a ++ s) = Some (e, (r ++ s)%list).
Proof.
  intros Hs E. destruct a as [|c a].
  - cbn in E. injection E as <- <-. destruct s as [|c r]; [reflexivity|].
    cbn in Hs |- *. unfold continues_number in Hs.
    destruct (N.eqb c (ch "e")); [rewrite orb_true_r in Hs; discriminate Hs|].
    destruct (N.eqb c (ch "E")); [rewrite orb_true_r in Hs; discriminate Hs|].
    reflexivity.
  - cbn [app read_exp] in *.
    destruct (N.eqb c (ch "e") || N.eqb c (ch "E")); [|injection E as <- <-; reflexivity].
    destruct a as [|d a]; [discriminate E|]. cbn [app] in *.
    destruct (N.eqb d (ch "+") || N.eqb d (ch "-")).
    + rewrite digits_app by exact Hs. destruct (digits a) as [[|x xs] r'];
        [discriminate E | injection E as <- <-; reflexivity].
    + change (d :: (a ++ s))%list with ((d :: a) ++ s)%list.
      rewrite (digits_app (d :: a)) by exact Hs.
      destruct (digits (d :: a)) as [[|x xs] r'];
        [discriminate E | injection E as <- <-; reflexivity].
Qed.

(** [read_number] after its sign. *)
Definition number_rest (sg s1 : jsstring) : option (jsstring * jsstring) :=
  match read_int s1 with
  | None => None
  | Some (i, s2) =>
      match read_frac s2 with
      | None => None
      | Some (fr, s3) =>
          match read_exp s3 with
          | None => None
          | Some (e, s4) => Some (sg ++ i ++ fr ++ e, s4)
          end
      end
  end.

Lemma read_number_rest (a : jsstring) :
  read_number a =
  match a with
  | c :: r => if N.eqb c (ch "-") then number_rest (c :: nil) r else number_rest nil a
  | nil => number_rest nil nil
  end.
Proof. destruct a as [|c r]; [reflexivity|]. unfold read_number. destruct (N.eqb c (ch "-")); reflexivity. Qed.

Lemma number_rest_app (sg s1 s lit r : jsstring) : num_stop s = true ->
  number_rest sg s1 = Some (lit, r) -> number_rest sg (s1 ++ s) = Some (lit, (r ++ s)%list).
Proof.
  intros Hs E. unfold number_rest in *.
  destruct (read_int s1) as [[i s2]|] eqn:Ei; [|discriminate E].
  rewrite (read_int_app _ _ _ _ Hs Ei).
  destruct (read_frac s2) as [[fr s3]|] eqn:Ef; [|discriminate E].
  rewrite (read_frac_app _ _ _ _ Hs Ef).
  destruct (read_exp s3) as [[e s4]|] eqn:Ee; [|discriminate E].
  rewrite (read_exp_app _ _ _ _ Hs Ee). injection E as <- <-. reflexivity.
Qed.

Lemma read_number_app (a s lit r : jsstring) : num_stop s = true ->
  read_number a = Some (lit, r) -> read_number (a ++ s) = Some (lit, (r ++ s)%list).
Proof.
  intros Hs E. rewrite read_number_rest in *. destruct a as [|c a].
  - unfold number_rest in E. discriminate E.
  - cbn [app]. destruct (N.eqb c (ch "-")).
    + apply number_rest_app; assumption.
    + change (c :: (a ++ s))%list with ((c :: a) ++ s)%list.
      apply number_rest_app; assumption.
Qed.

Lemma digits_split (a : jsstring) : a = (fst (digits a) ++ snd (digits a))%list.
Proof.
  induction a as [|c a IH]; [reflexivity|]. cbn [digits].
  destruct (is_digit c); [|reflexivity].
  destruct (digits a) as [d r]. cbn in *. congruence.
Qed.

(** A token read is a prefix of the text. *)
Lemma number_rest_split (sg s1 lit r : jsstring) :
  number_rest sg s1 = Some (lit, r) -> (sg ++ s1)%list = (lit ++ r)%list.
Proof.
  unfold number_rest. intros E.
  destruct (read_int s1) as [[i s2]|] eqn:Ei; [|discriminate E].
  destruct (read_frac s2) as [[fr s3]|] eqn:Ef; [|discriminate E].
  destruct (read_exp s3) as [[e s4]|] eqn:Ee; [|discriminate E].
  injection E as <- <-.
  assert (s1 = (i ++ s2)%list).
  { destruct s1 as [|c s1]; [discriminate Ei|]. cbn [read_int] in Ei.
    destruct (N.eqb c (ch "0")); [injection Ei as <- <-; reflexivity|].
    destruct (is_digit c); [|discriminate Ei].
    pose proof (digits_split s1) as D. destruct (digits s1).
    injection Ei as <- <-. cbn in D |- *. congruence. }
  assert (s2 = (fr ++ s3)%list).
  { destruct s2 as [|c s2]; [cbn in Ef; injection Ef as <- <-; reflexivity|].
    cbn [read_frac] in Ef.
    destruct (N.eqb c (ch ".")); [|injection Ef as <- <-; reflexivity].
    pose proof (digits_split s2) as D. destruct (digits s2) as [[|x xs] r'];
      [discriminate Ef|]. injection Ef as <- <-. cbn in D |- *. congruence. }
  assert (s3 = (e ++ s4)%list).
  { destruct s3 as [|c s3]; [cbn in Ee; injection Ee as <- <-; reflexivity|].
    cbn [read_exp] in Ee.
    destruct (N.eqb c (ch "e") || N.eqb c (ch "E")); [|injection Ee as <- <-; reflexivity].
    destruct s3 as [|d s3]; [discriminate Ee|].
    destruct (N.eqb d (ch "+") || N.eqb d (ch "-")).
    - pose proof (digits_split s3) as D. destruct (digits s3) as [[|x xs] r'];
        [discriminate Ee|]. cbn in D. injection Ee as <- <-. cbn. congruence.
    - pose proof (digits_split (d :: s3)) as D. destruct (digits (d :: s3)) as [[|x xs] r'];
        [discriminate Ee|]. cbn in D. injection Ee as <- <-. cbn. congruence. }
  subst. rewrite <- !app_assoc. reflexivity.
Qed.

(** A token read is a prefix of the text. *)
Lemma read_number_split (a lit r : jsstring) :
  read_number a = Some (lit, r) -> a = (lit ++ r)%list.
Proof.
  rewrite read_number_rest. intros E. destruct a as [|c a].
  - unfold number_rest in E. discriminate E.
  - destruct (N.eqb c (ch "-")).
    + exact (number_rest_split _ _ _ _ E).
    + exact (number_rest_split _ _ _ _ E).
Qed.

(** A number token starts with [-] or a digit. *)
Lemma read_number_head (a lit r : jsstring) :
  read_number a = Some (lit, r) ->
  exists c a', a = c :: a' /\ (c = 45%N \/ (48 <= c <= 57)%N).
Proof.
  unfold read_number. intros E. destruct a as [|c a].
  - discriminate E.
  - exists c, a. split; [reflexivity|].
    destruct (N.eqb_spec c (ch "-")) as [->|Nm]; [left; reflexivity|]. right.
    destruct (read_int (c :: a)) as [[i s2]|] eqn:Ei; [|discriminate E].
    cbn [read_int] in Ei.
    destruct (N.eqb_spec c (ch "0")) as [->|N0]; [units; lia|].
    destruct (is_digit c) eqn:D; [|discriminate Ei].
    unfold is_digit in D. apply andb_prop in D as [D1 D2]. apply N.leb_le in D1, D2.
    units. lia.
Qed.

Section Facts.
Context {NUM : JsNumber}.

(** *** The text of a value *)

(** What may follow the text of a value inside a JSON text: nothing, or a
    comma or closing bracket. *)
Definition ends_item (s : jsstring) : bool :=
  match s with
  | nil => true
  | c :: _ => N.eqb c comma || N.eqb c (ch "]") || N.eqb c (ch "}")
  end.

Lemma ends_item_num_stop (s : jsstring) : ends_item s = true -> num_stop s = true.
Proof.
  destruct s as [|c s]; [reflexivity|]. cbn. unfold continues_number. units.
  intros H. repeat (apply orb_prop in H as [H|H]); apply N.eqb_eq in H; subst c;
    reflexivity.
Qed.

Lemma stringify_text (v : jsval) :
  json_value v = true -> stringify v = Some (item_text v).
Proof. destruct v as [| |[]| | | |]; intros H; [discriminate H | reflexivity ..]. Qed.

Lemma fields_text_members (fs : list (jsstring * jsval)) :
  forallb (fun kv => json_value (snd kv)) fs = true ->
  fields_text stringify fs = map member_text fs.
Proof.
  induction fs as [|[k x] fs IH]; intros H; [reflexivity|].
  cbn in H. apply andb_prop in H as [Hx Hfs].
  cbn [fields_text]. rewrite (stringify_text x Hx), IH by exact Hfs. reflexivity.
Qed.

Lemma item_text_arr (r : N) (xs : list jsval) :
  item_text (JArr r xs) = ch "[" :: join (map item_text xs) ++ ch "]" :: nil.
Proof. reflexivity. Qed.

Lemma item_text_obj (r : N) (fs : list (jsstring * jsval)) :
  forallb (fun kv => json_value (snd kv)) fs = true ->
  item_text (JObj r fs) = ch "{" :: join (map member_text fs) ++ ch "}" :: nil.
Proof. intros H. unfold item_text. cbn [stringify]. now rewrite fields_text_members. Qed.

Lemma item_text_num (n : number) :
  number_finite n = true -> item_text (JNum n) = number_to_string n.
Proof. intros H. unfold item_text. cbn [stringify]. rewrite H. reflexivity. Qed.

(** The text of a number is one token. *)
Lemma number_text_read (n : number) :
  number_finite n = true ->
  read_number (number_to_string n) = Some (number_to_string n, nil).
Proof.
  intros H. pose proof (number_to_string_literal n H) as L. unfold number_literal in L.
  destruct (read_number (number_to_string n)) as [[lit [|c r]]|] eqn:E;
    try discriminate L.
  rewrite (read_number_split _ _ _ E), app_nil_r. reflexivity.
Qed.

(** The first code unit of a text is not whitespace and closes nothing. *)
Definition plain_head (t : jsstring) : Prop :=
  exists c r, t = c :: r /\ is_ws c = false /\ N.eqb c (ch "]") = false /\
    N.eqb c (ch "}") = false.

Lemma plain_head_of (c : N) (r : jsstring) :
  (c = 34 \/ c = 45 \/ (48 <= c <= 57) \/ c = 91 \/ c = 102 \/ c = 110 \/ c = 116 \/
   c = 123)%N -> plain_head (c :: r).
Proof.
  intros H. exists c, r. split; [reflexivity|]. units.
  repeat split; repeat (apply orb_false_iff; split); apply N.eqb_neq; lia.
Qed.

Lemma text_head (v : jsval) (s : jsstring) :
  json_value v = true -> plain_head (item_text v ++ s).
Proof.
  intros Hj. destruct v as [| |[]|n| | |]; [discriminate Hj| | | | | | |];
    try (apply plain_head_of; units; lia).
  cbn [json_value] in Hj. apply andb_prop in Hj as [Hf _].
  rewrite item_text_num by exact Hf.
  destruct (read_number_head _ _ _ (number_text_read n Hf)) as (c & a & -> & Hc).
  apply plain_head_of. lia.
Qed.

Lemma skip_ws_plain (t : jsstring) : plain_head t -> skip_ws t = t.
Proof. intros (c & r & -> & H1 & _). cbn. rewrite H1. reflexivity. Qed.

(** *** Parsing the text of a value *)

Lemma value_number (base : N) (f : nat) (c : N) (r : jsstring) :
  (c = 45 \/ (48 <= c <= 57))%N ->
  parse_value base (S f) (c :: r) =
  match read_number (c :: r) with
  | Some (lit, r') => Some (JNum (number_of_literal lit), r')
  | None => None
  end.
Proof.
  intros H.
  assert (c = 45 \/ c = 48 \/ c = 49 \/ c = 50 \/ c = 51 \/ c = 52 \/ c = 53 \/ c = 54 \/
          c = 55 \/ c = 56 \/ c = 57)%N as Hc by lia.
  repeat destruct Hc as [->|Hc]; try reflexivity. subst c. reflexivity.
Qed.

Lemma value_string (base : N) (f : nat) (t : jsstring) :
  parse_value base (S f) (quote :: t) =
  match string_body SText t with Some (t', r) => Some (JStr t', r) | None => None end.
Proof. reflexivity. Qed.

Lemma value_array (base : N) (f : nat) (t : jsstring) :
  plain_head t ->
  parse_value base (S f) (ch "[" :: t) =
  match parse_elems base f t with
  | Some (xs, r) => Some (JArr (base + N.of_nat (length t)) xs, r)
  | None => None
  end.
Proof.
  intros P. pose proof (skip_ws_plain _ P) as E.
  destruct P as (c & r & -> & H1 & H2 & _).
  cbn [parse_value]. change (skip_ws (ch "[" :: c :: r)) with (ch "[" :: c :: r).
  cbn iota. change (N.eqb (ch "[") (ch "n")) with false.
  change (N.eqb (ch "[") (ch "t")) with false. change (N.eqb (ch "[") (ch "f")) with false.
  change (N.eqb (ch "[") quote) with false. change (N.eqb (ch "[") (ch "[")) with true.
  cbn iota zeta. rewrite E, H2. reflexivity.
Qed.

Lemma value_object (base : N) (f : nat) (t : jsstring) :
  parse_value base (S f) (ch "{" :: quote :: t) =
  match parse_members base f (quote :: t) with
  | Some (fs, r) => Some (JObj (base + N.of_nat (S (length t))) (object_of_members fs), r)
  | None => None
  end.
Proof. reflexivity. Qed.

Lemma elems_comma (base : N) (f : nat) (t R : jsstring) (x : jsval) :
  parse_value base f t = Some (x, comma :: R) ->
  parse_elems base (S f) t =
  match parse_elems base f R with Some (xs, r) => Some (x :: xs, r) | None => None end.
Proof. intros H. cbn [parse_elems]. rewrite H. reflexivity. Qed.

Lemma elems_close (base : N) (f : nat) (t R : jsstring) (x : jsval) :
  parse_value base f t = Some (x, ch "]" :: R) ->
  parse_elems base (S f) t = Some (x :: nil, R).
Proof. intros H. cbn [parse_elems]. rewrite H. reflexivity. Qed.

Lemma members_step (base : N) (f : nat) (k t R : jsstring) (x : jsval) :
  parse_value base f t = Some (x, R) ->
  parse_members base (S f) (quote_json k ++ ch ":" :: t) =
  match skip_ws R with
  | c3 :: r4 =>
      if N.eqb c3 comma then
        match parse_members base f r4 with
        | Some (fs, r5) => Some ((k, x) :: fs, r5)
        | None => None
        end
      else if N.eqb c3 (ch "}") then Some ((k, x) :: nil, r4)
      else None
  | nil => None
  end.
Proof.
  intros H. unfold quote_json. rewrite <- app_comm_cons, <- app_assoc.
  cbn [app parse_members].
  change (skip_ws (quote :: (escape_units k ++ quote :: ch ":" :: t)%list))
    with (quote :: (escape_units k ++ quote :: ch ":" :: t)%list).
  cbn iota. change (N.eqb quote quote) with true. cbn iota.
  rewrite escape_round_trip.
  change (skip_ws (ch ":" :: t)) with (ch ":" :: t).
  change (N.eqb (ch ":") (ch ":")) with true. cbn iota. rewrite H. reflexivity.
Qed.

Lemma join_map_one {A : Type} (g : A -> jsstring) (x : A) :
  join (map g (x :: nil)) = g x.
Proof. reflexivity. Qed.

Lemma join_map_two {A : Type} (g : A -> jsstring) (x y : A) (l : list A) :
  join (map g (x :: y :: l)) = (g x ++ comma :: join (map g (y :: l)))%list.
Proof. reflexivity. Qed.

Lemma list_sum_cons (a : nat) (l : list nat) : list_sum (a :: l) = (a + list_sum l)%nat.
Proof. reflexivity. Qed.

Definition strip_kv (kv : jsstring * jsval) : jsstring * jsval :=
  (fst kv, strip (snd kv)).

(** What [JSON.parse] need to read the text of a value back: at any fuel
    at least the size of the value, before a comma, a closing bracket or
    the end, it gives a value equal to it up to references. *)
Definition parses_back (v : jsval) : Prop :=
  json_value v = true -> forall (base : N) (f : nat) (s : jsstring),
  (size v <= f)%nat -> ends_item s = true ->
  exists v', parse_value base f (item_text v ++ s) = Some (v', s) /\ strip v' = strip v.

Lemma parse_elems_items (base : N) (xs : list jsval) :
  Forall parses_back xs -> forallb json_value xs = true -> xs <> nil ->
  forall (f : nat) (s : jsstring), (list_sum (map (fun x => S (size x)) xs) <= f)%nat ->
  exists ys, parse_elems base f (join (map item_text xs) ++ ch "]" :: s) = Some (ys, s) /\
    map strip ys = map strip xs.
Proof.
  induction 1 as [|x xs Px Pxs IH]; intros Hj Hne f s Hf; [congruence|].
  cbn [forallb] in Hj. apply andb_prop in Hj as [Hx Hxs].
  cbn [map] in Hf. rewrite list_sum_cons in Hf.
  destruct f as [|f]; [lia|].
  destruct xs as [|y ys].
  - rewrite join_map_one.
    destruct (Px Hx base f (ch "]" :: s)) as (x' & E & Ex); [lia | reflexivity |].
    exists (x' :: nil). rewrite (elems_close _ _ _ _ _ E). split; [reflexivity|].
    cbn. rewrite Ex. reflexivity.
  - rewrite join_map_two, <- app_assoc. cbn [app].
    destruct (Px Hx base f (comma :: join (map item_text (y :: ys)) ++ ch "]" :: s))
      as (x' & E & Ex); [lia | reflexivity |].
    rewrite (elems_comma _ _ _ _ _ E).
    destruct (IH Hxs ltac:(congruence) f s) as (zs & E2 & Ez); [lia|].
    rewrite E2. exists (x' :: zs). split; [reflexivity|]. cbn. rewrite Ex, Ez. reflexivity.
Qed.

Lemma parse_members_items (base : N) (fs : list (jsstring * jsval)) :
  Forall (fun kv => parses_back (snd kv)) fs ->
  forallb (fun kv => json_value (snd kv)) fs = true -> fs <> nil ->
  forall (f : nat) (s : jsstring),
  (list_sum (map (fun kv => S (size (snd kv))) fs) <= f)%nat ->
  exists gs, parse_members base f (join (map member_text fs) ++ ch "}" :: s) = Some (gs, s) /\
    map strip_kv gs = map strip_kv fs.
Proof.
  induction 1 as [|[k x] fs Px Pfs IH]; intros Hj Hne f s Hf; [congruence|].
  cbn [forallb snd] in Hj. apply andb_prop in Hj as [Hx Hfs].
  cbn [map snd] in Hf. rewrite list_sum_cons in Hf. cbn [snd] in Px.
  destruct f as [|f]; [lia|].
  destruct fs as [|g gs].
  - rewrite join_map_one. unfold member_text. cbn [fst snd].
    rewrite <- app_assoc. cbn [app].
    destruct (Px Hx base f (ch "}" :: s)) as (x' & E & Ex); [lia | reflexivity |].
    rewrite (members_step _ _ _ _ _ _ E). exists ((k, x') :: nil). split; [reflexivity|].
    cbn. unfold strip_kv. cbn. rewrite Ex. reflexivity.
  - rewrite join_map_two. unfold member_text at 1. cbn [fst snd].
    rewrite <- !app_assoc. cbn [app].
    destruct (Px Hx base f (comma :: join (map member_text (g :: gs)) ++ ch "}" :: s))
      as (x' & E & Ex); [lia | reflexivity |].
    rewrite (members_step _ _ _ _ _ _ E).
    change (skip_ws (comma :: (join (map member_text (g :: gs)) ++ ch "}" :: s)%list))
      with (comma :: (join (map member_text (g :: gs)) ++ ch "}" :: s)%list).
    cbn iota. change (N.eqb comma comma) with true. cbn iota.
    destruct (IH Hfs ltac:(congruence) f s) as (hs & E2 & Eh); [lia|].
    rewrite E2. exists ((k, x') :: hs). split; [reflexivity|].
    cbn [map]. rewrite Eh. unfold strip_kv at 1 3. cbn. rewrite Ex. reflexivity.
Qed.

(** *** Objects are rebuilt in their order *)

Lemma units_eqb_refl (s : jsstring) : units_eqb s s = true.
Proof. induction s as [|c s IH]; [reflexivity|]. cbn. rewrite N.eqb_refl. exact IH. Qed.

Lemma units_eqb_eq (s t : jsstring) : units_eqb s t = true -> s = t.
Proof.
  revert t. induction s as [|c s IH]; intros [|d t] E; try discriminate E; [reflexivity|].
  cbn in E. apply andb_prop in E as [E1 E2]. apply N.eqb_eq in E1. subst d.
  f_equal. apply IH, E2.
Qed.

Lemma key_precedes_irrefl (k : jsstring) : key_precedes k k = false.
Proof.
  unfold key_precedes. destruct (array_index k); [apply N.ltb_irrefl|].
  rewrite units_eqb_refl. reflexivity.
Qed.

Lemma key_precedes_neq (a k : jsstring) : key_precedes a k = true -> units_eqb k a = false.
Proof.
  intros H. destruct (units_eqb k a) eqn:E; [|reflexivity].
  apply units_eqb_eq in E. subst a. rewrite key_precedes_irrefl in H. discriminate H.
Qed.

Lemma keys_ordered_before (a b : list jsstring) (k : jsstring) :
  keys_ordered (a ++ k :: b) = true -> Forall (fun x => key_precedes x k = true) a.
Proof.
  induction a as [|x a IH]; intros H; [constructor|].
  cbn [app keys_ordered] in H. apply andb_prop in H as [H1 H2].
  constructor; [|apply IH, H2].
  rewrite forallb_forall in H1. apply H1, in_or_app. right. left. reflexivity.
Qed.

Lemma insert_key_last (k : jsstring) (x : jsval) (acc : list (jsstring * jsval)) :
  Forall (fun a => key_precedes a k = true) (map fst acc) ->
  insert_key k x acc = (acc ++ (k, x) :: nil)%list.
Proof.
  induction acc as [|[k' y] acc IH]; intros H; [reflexivity|].
  cbn [map fst] in H. inversion H as [|? ? Hk Hrest]; subst.
  cbn [insert_key app]. unfold key_precedes in Hk.
  destruct (array_index k) as [n|].
  - destruct (array_index k') as [m|]; [|discriminate Hk].
    rewrite Hk, IH by exact Hrest. reflexivity.
  - rewrite IH by exact Hrest. reflexivity.
Qed.

Lemma obj_set_last (k : jsstring) (x : jsval) (acc : list (jsstring * jsval)) :
  Forall (fun a => key_precedes a k = true) (map fst acc) ->
  obj_set k x acc = (acc ++ (k, x) :: nil)%list.
Proof.
  intros H. unfold obj_set.
  replace (existsb (fun kv => units_eqb k (fst kv)) acc) with false.
  - apply insert_key_last, H.
  - symmetry. apply not_true_iff_false. intros E. apply existsb_exists in E as [[k' y] [I E]].
    rewrite List.Forall_forall in H. cbn [fst] in E.
    specialize (H k' (in_map fst _ _ I)). rewrite (key_precedes_neq _ _ H) in E.
    discriminate E.
Qed.

Lemma fold_obj_set (l acc : list (jsstring * jsval)) :
  keys_ordered (map fst (acc ++ l)) = true ->
  fold_left (fun acc kv => obj_set (fst kv) (snd kv) acc) l acc = (acc ++ l)%list.
Proof.
  revert acc. induction l as [|[k x] l IH]; intros acc H.
  - now rewrite app_nil_r.
  - cbn [fold_left fst snd]. rewrite obj_set_last.
    + rewrite IH; [now rewrite <- app_assoc | now rewrite <- app_assoc].
    + rewrite map_app in H. exact (keys_ordered_before _ _ _ H).
Qed.

(** Members with keys in enumeration order make the object they list. *)
Lemma object_of_members_ordered (l : list (jsstring * jsval)) :
  keys_ordered (map fst l) = true -> object_of_members l = l.
Proof. intros H. unfold object_of_members. now apply fold_obj_set. Qed.

Lemma map_fst_strip_kv (l : list (jsstring * jsval)) : map fst (map strip_kv l) = map fst l.
Proof. rewrite map_map. reflexivity. Qed.

(** [JSON.parse] reads back what [JSON.stringify] wrote. *)
Lemma parse_item_text (v : jsval) : parses_back v.
Proof.
  induction v as [| |b|n|x|r xs IH|r fs IH] using jsval_ind';
    unfold parses_back; intros Hj base f s Hf Hs.
  - discriminate Hj.
  - destruct f; [cbn in Hf; lia|]. exists JNull. split; reflexivity.
  - destruct f; [cbn in Hf; lia|]. exists (JBool b). destruct b; split; reflexivity.
  - destruct f; [cbn in Hf; lia|].
    cbn [json_value] in Hj. apply andb_prop in Hj as [Hfin Hz]. apply negb_true_iff in Hz.
    rewrite item_text_num by exact Hfin.
    pose proof (number_text_read n Hfin) as R.
    destruct (read_number_head _ _ _ R) as (c & a & E & Hc).
    exists (JNum n). split; [|reflexivity].
    rewrite E. cbn [app]. rewrite value_number by exact Hc.
    rewrite app_comm_cons, <- E.
    rewrite (read_number_app _ _ _ _ (ends_item_num_stop s Hs) R). cbn [app].
    rewrite number_literal_round_trip by assumption. reflexivity.
  - destruct f; [cbn in Hf; lia|]. exists (JStr x).
    change (item_text (JStr x)) with (quote_json x). unfold quote_json.
    rewrite <- app_comm_cons, <- app_assoc. cbn [app].
    rewrite value_string, escape_round_trip. split; reflexivity.
  - destruct f as [|f]; [cbn in Hf; lia|].
    destruct xs as [|x xs'].
    + exists (JArr (base + N.of_nat (length (ch "]" :: s))) nil). split; [|reflexivity].
      reflexivity.
    + cbn [json_value] in Hj. cbn [size] in Hf.
      rewrite item_text_arr, <- app_comm_cons, <- app_assoc. cbn [app].
      destruct (parse_elems_items base (x :: xs') IH Hj ltac:(congruence) f s)
        as (ys & E & Ey); [lia|].
      rewrite value_array, E.
      * eexists. split; [reflexivity|]. cbn [strip]. rewrite Ey. reflexivity.
      * destruct xs' as [|y ys']; [rewrite join_map_one | rewrite join_map_two, <- app_assoc];
          apply text_head; cbn in Hj; apply andb_prop in Hj as [Hx _]; exact Hx.
  - destruct f as [|f]; [cbn in Hf; lia|].
    cbn [json_value] in Hj. apply andb_prop in Hj as [Hk Hj].
    destruct fs as [|[k x] fs'].
    + exists (JObj (base + N.of_nat (length (ch "}" :: s))) nil). split; reflexivity.
    + cbn [size] in Hf.
      rewrite item_text_obj by exact Hj. rewrite <- app_comm_cons, <- app_assoc. cbn [app].
      destruct (parse_members_items base ((k, x) :: fs') IH Hj ltac:(congruence) f s)
        as (gs & E & Eg); [lia|].
      assert (Hq : exists t, (join (map member_text ((k, x) :: fs')) ++ ch "}" :: s)%list
                            = quote :: t).
      { destruct fs' as [|g fs''];
          [rewrite join_map_one | rewrite join_map_two, <- app_assoc];
          unfold member_text, quote_json; cbn [fst snd];
          (eexists; rewrite <- !app_comm_cons; reflexivity). }
      destruct Hq as [t Et]. rewrite Et, value_object, <- Et, E.
      eexists. split; [reflexivity|].
      rewrite object_of_members_ordered.
      * cbn [strip]. change (fun kv : jsstring * jsval => (fst kv, strip (snd kv)))
          with strip_kv. rewrite Eg. reflexivity.
      * rewrite <- map_fst_strip_kv, Eg, map_fst_strip_kv. exact Hk.
Qed.

(** *** The fuel [parse] starts with suffices *)

Lemma join_length (l : list jsstring) :
  (list_sum (map (fun t => S (length t)) l) <= S (length (join l)))%nat.
Proof.
  induction l as [|a l IH]; [cbn; lia|].
  destruct l as [|b l].
  - cbn. lia.
  - change (join (a :: b :: l)) with (a ++ comma :: join (b :: l))%list.
    cbn [map] in *. rewrite !list_sum_cons in *. rewrite length_app. cbn [length] in *. lia.
Qed.

Lemma sum_le {A : Type} (g h : A -> nat) (l : list A) :
  Forall (fun x => g x <= h x)%nat l -> (list_sum (map g l) <= list_sum (map h l))%nat.
Proof. induction 1; cbn [map]; rewrite ?list_sum_cons; cbn; lia. Qed.

Lemma text_length (v : jsval) :
  json_value v = true -> (1 <= length (item_text v))%nat.
Proof.
  intros Hj. destruct (text_head v nil Hj) as (c & r & E & _).
  rewrite app_nil_r in E. rewrite E. cbn. lia.
Qed.

Definition size_bounded (v : jsval) : Prop :=
  json_value v = true -> (size v <= length (item_text v))%nat.

(** A value has at most as many nodes as its text has code units. *)
Lemma size_text (v : jsval) : size_bounded v.
Proof.
  induction v as [| |b|n|x|r xs IH|r fs IH] using jsval_ind';
    unfold size_bounded; intros Hj.
  - discriminate Hj.
  - cbn. lia.
  - destruct b; cbn; lia.
  - exact (text_length (JNum n) Hj).
  - exact (text_length (JStr x) Hj).
  - cbn [json_value] in Hj. rewrite item_text_arr. cbn [length]. rewrite length_app.
    cbn [size length].
    assert (list_sum (map (fun x => S (size x)) xs)
            <= list_sum (map (fun t => S (length t)) (map item_text xs)))%nat.
    { rewrite map_map. apply sum_le.
      apply List.Forall_forall. intros x Hx.
      rewrite List.Forall_forall in IH. rewrite forallb_forall in Hj.
      specialize (IH x Hx (Hj x Hx)). lia. }
    pose proof (join_length (map item_text xs)). lia.
  - cbn [json_value] in Hj. apply andb_prop in Hj as [_ Hj].
    rewrite item_text_obj by exact Hj. cbn [length]. rewrite length_app.
    cbn [size length].
    assert (list_sum (map (fun kv => S (size (snd kv))) fs)
            <= list_sum (map (fun t => S (length t)) (map member_text fs)))%nat.
    { rewrite map_map. apply sum_le.
      apply List.Forall_forall. intros [k x] Hx.
      rewrite List.Forall_forall in IH. rewrite forallb_forall in Hj.
      specialize (IH (k, x) Hx (Hj (k, x) Hx)). cbn [snd] in IH.
      unfold member_text, quote_json. cbn [fst snd]. rewrite length_app.
      cbn [length]. rewrite length_app. cbn [length]. lia. }
    pose proof (join_length (map member_text fs)). lia.
Qed.

(** [JSON.parse(JSON.stringify(v))] is [v] up to references. *)
Lemma parse_stored_stringify (base : N) (v : jsval) :
  json_value v = true ->
  exists v', parse base (stored_text (stringify v)) = Some v' /\ strip v' = strip v.
Proof.
  intros Hj. rewrite (stringify_text v Hj). cbn [stored_text].
  destruct (parse_item_text v Hj base (S (length (item_text v))) nil) as (v' & E & Ev).
  - pose proof (size_text v Hj). lia.
  - reflexivity.
  - rewrite app_nil_r in E. exists v'. unfold parse. rewrite E. split; [reflexivity | exact Ev].
Qed.


End Facts.

End JsonFacts.

(* ================================================================== *)
(** ** Facts about the storage hooks *)

Module StorageFacts.
Import Js Json JsonFacts React StorageHooks.

Section Facts.
Context {NUM : JsNumber}.

Lemma jsval_eqb_eq (a : jsval) : forall b, jsval_eqb a b = true -> a = b.
Proof.
  induction a as [| | x | x | x | r xs IH | r fs IH] using jsval_ind';
    intros [| | y | y | y | r' ys | r' gs]; cbn [jsval_eqb]; intros E;
    try discriminate; try reflexivity.
  - apply Bool.eqb_prop in E. now subst.
  - apply number_is_spec in E. now subst.
  - apply units_eqb_eq in E. now subst.
  - apply andb_prop in E as [Er E]. apply N.eqb_eq in Er. subst r'. f_equal.
    revert ys E. induction IH as [| x xs Hx _ IHxs]; intros [| y ys] E;
      try discriminate; try reflexivity.
    apply andb_prop in E as [E1 E2]. f_equal; [apply Hx, E1 | apply IHxs, E2].
  - apply andb_prop in E as [Er E]. apply N.eqb_eq in Er. subst r'. f_equal.
    revert gs E. induction IH as [| [k x] fs Hx _ IHfs]; intros [| [k' y] gs] E;
      try discriminate; try reflexivity.
    apply andb_prop in E as [E1 E2]. apply andb_prop in E1 as [Ek E1].
    apply units_eqb_eq in Ek. subst k'. f_equal; [f_equal; apply Hx, E1 | apply IHfs, E2].
Qed.

Lemma jsval_eqb_refl_prim (a : jsval) : is_primitive a = true -> jsval_eqb a a = true.
Proof.
  destruct a as [| |x|x|x| |]; intros H; try discriminate H; cbn; try reflexivity.
  - destruct x; reflexivity.
  - apply number_is_spec. reflexivity.
  - apply units_eqb_refl.
Qed.

(** [Object.is] is an equivalence; on a primitive it is equality. *)
Lemma object_is_refl (a : jsval) : object_is a a = true.
Proof.
  destruct a as [| |x|x|x|r xs|r fs]; try (apply jsval_eqb_refl_prim; reflexivity);
    apply N.eqb_refl.
Qed.

Lemma object_is_primitive (a b : jsval) :
  is_primitive b = true -> object_is a b = true -> a = b.
Proof.
  intros P E. apply jsval_eqb_eq.
  destruct a, b; try exact E; discriminate P.
Qed.

Lemma object_is_trans (a b c : jsval) :
  object_is a b = true -> object_is b c = true -> object_is a c = true.
Proof.
  intros E1 E2. destruct (is_primitive b) eqn:P.
  - rewrite (object_is_primitive a b P E1). exact E2.
  - destruct b as [| | | | |r xs|r fs]; try discriminate P;
      (destruct a; try discriminate E1; destruct c; try discriminate E2;
       cbn in *; apply N.eqb_eq in E1, E2; subst; apply N.eqb_refl).
Qed.

Lemma getItem_setItem (sc : scope) (b : browser) (k t : jsstring) :
  getItem sc (setItem sc b k t) k = Some t.
Proof. destruct sc; apply lookup_insert_eq. Qed.

Lemma writes_setItem (sc : scope) (b : browser) (k t : jsstring) :
  writes (setItem sc b k t) = (writes b ++ (sc, k, t) :: nil)%list.
Proof. destruct sc; reflexivity. Qed.

Lemma getItem_setItem_other (sc sc' : scope) (b : browser) (k k' t : jsstring) :
  sc' <> sc \/ k' <> k -> getItem sc' (setItem sc b k t) k' = getItem sc' b k'.
Proof.
  intros D. destruct sc, sc'; cbn; try reflexivity;
    (destruct D as [D|D]; [congruence | apply lookup_insert_ne; congruence]).
Qed.

(** Reading the initial value writes nothing: [JSON.parse] only allocates. *)
Lemma read_initial_frame (sc : scope) (b b' : browser) (k : jsstring) (iv v : jsval) :
  read_initial sc b k iv = Ok (v, b') ->
  local b' = local b /\ session b' = session b /\ writes b' = writes b.
Proof.
  unfold read_initial. destruct (getItem sc b k) as [item|].
  - destruct (truthy_string item).
    + destruct (parse (next_ref b) item); intros E; [|discriminate E].
      injection E as _ <-. repeat split.
    + intros E. injection E as _ <-. repeat split.
  - intros E. injection E as _ <-. repeat split.
Qed.

Lemma getItem_frame (sc : scope) (b b' : browser) (k : jsstring) :
  local b' = local b -> session b' = session b -> getItem sc b' k = getItem sc b k.
Proof. intros L S. destruct sc; unfold getItem, store; congruence. Qed.

(** The store holds the text of the last committed state, which is
    [Object.is] the current one: the same object, possibly mutated
    since, or an equal primitive. *)
Definition committed (sc : scope) (i : instance) (b : browser) : Prop :=
  exists c, getItem sc b (key i) = Some (stored_text (stringify c)) /\
    object_is c (value i) = true.

Lemma acquire_committed (sc : scope) (k : jsstring) (iv : jsval) (b b1 : browser)
    (i : instance) :
  acquire sc k iv b = Ok (i, b1) -> key i = k /\ committed sc i b1.
Proof.
  unfold acquire. destruct (read_initial sc b k iv) as [[v b']|e]; intros E;
    [|discriminate]. injection E as <- <-. split; [reflexivity|].
  exists v. split; [apply getItem_setItem | apply object_is_refl].
Qed.

Lemma acquire_writes (sc : scope) (k : jsstring) (iv : jsval) (b b1 : browser)
    (i : instance) :
  acquire sc k iv b = Ok (i, b1) -> length (writes b1) = S (length (writes b)).
Proof.
  unfold acquire. destruct (read_initial sc b k iv) as [[v b']|e] eqn:R; intros E;
    [|discriminate]. injection E as _ <-. destruct (read_initial_frame _ _ _ _ _ _ R)
    as (_ & _ & W). unfold persist. rewrite writes_setItem, length_app, W. cbn. lia.
Qed.

Lemma setValue_key_value (sc : scope) (acts : list (action jsval)) (i : instance)
    (b : browser) :
  key (fst (setValue sc acts i b)) = key i /\
  value (fst (setValue sc acts i b)) = run_batch acts (value i).
Proof. unfold setValue. destruct (object_is _ _); split; reflexivity. Qed.

Lemma setValue_committed (sc : scope) (acts : list (action jsval)) (i : instance)
    (b : browser) :
  committed sc i b -> committed sc (fst (setValue sc acts i b)) (snd (setValue sc acts i b)).
Proof.
  intros (c & G & O). unfold setValue.
  destruct (object_is (value i) (run_batch acts (value i))) eqn:O'; cbn [fst snd].
  - exists c. split; [exact G | exact (object_is_trans _ _ _ O O')].
  - exists (run_batch acts (value i)). split; [apply getItem_setItem | apply object_is_refl].
Qed.

Lemma run_batches_committed (sc : scope) (bs : list (list (action jsval))) :
  forall i b, committed sc i b ->
  key (fst (run_batches sc bs i b)) = key i /\
  committed sc (fst (run_batches sc bs i b)) (snd (run_batches sc bs i b)).
Proof.
  induction bs as [| acts bs IH]; intros i b C; cbn [run_batches].
  - split; [reflexivity | exact C].
  - pose proof (setValue_committed sc acts i b C) as C'.
    destruct (setValue_key_value sc acts i b) as [K _].
    destruct (setValue sc acts i b) as [i' b'] eqn:E. cbn in K, C'.
    destruct (IH i' b' C') as [K2 C2]. split; [congruence | exact C2].
Qed.


Lemma run_batches_writes (sc : scope) (bs : list (list (action jsval))) :
  forall i b, length (writes (snd (run_batches sc bs i b)))
              = (length (writes b) + changed_batches bs (value i))%nat.
Proof.
  induction bs as [| acts bs IH]; intros i b; cbn [run_batches changed_batches snd].
  - lia.
  - unfold setValue. cbv zeta. destruct (object_is (value i) (run_batch acts (value i))).
    + rewrite IH. cbn [value]. lia.
    + rewrite IH. cbn [value]. unfold persist. rewrite writes_setItem, length_app.
      cbn. lia.
Qed.



End Facts.

End StorageFacts.

(* ================================================================== *)
(** ** The storage hooks against the specification *)

Module StorageClaims.
Import Js Json JsonFacts React StorageHooks StorageFacts IntNumber.
Local Open Scope string_scope.


Section Claims.
Context {NUM : JsNumber}.


End Claims.


(** C2 counterexample: under a key never written, acquiring
    [useLocalStorage("theme", "light")] returns ["light"] but already
    writes the store: the mount run of the effect stores
    [JSON.stringify("light")] before any [setValue]. *)
Lemma fresh_acquire_writes :
  getItem LocalStorage empty_browser (js "theme") = None /\
  match acquire LocalStorage (js "theme") (JStr (js "light")) empty_browser with
  | Ok (i, b') =>
      value i = JStr (js "light") /\
      writes b' = (LocalStorage, js "theme", quote_json (js "light")) :: nil
  | Throw _ => False
  end.
Proof. split; [reflexivity|]. vm_compute. split; reflexivity. Qed.

Section Claims2.
Context {NUM : JsNumber}.

(** C2 (amended).  Under a key with no entry, acquisition of
    [useLocalStorage] or [useSessionStorage] returns the initial value
    [iv], and its mount writes [JSON.stringify(iv)] under the key: one
    [setItem], before any [setValue]. *)
Theorem acquire_fresh_key (sc : scope) (k : jsstring) (iv : jsval) (b : browser) :
  getItem sc b k = None ->
  acquire sc k iv b
  = Ok ({| key := k; value := iv |}, setItem sc b k (stored_text (stringify iv))).
Proof. intros G. unfold acquire, read_initial. rewrite G. reflexivity. Qed.

End Claims2.

Lemma acquire_fresh_key_witness :
  getItem SessionStorage empty_browser (js "theme") = None /\
  acquire SessionStorage (js "theme") (JStr (js "light")) empty_browser
  = Ok ({| key := js "theme"; value := JStr (js "light") |},
        setItem SessionStorage empty_browser (js "theme")
          (stored_text (stringify (JStr (js "light"))))).
Proof.
  split; [reflexivity|].
  apply (acquire_fresh_key SessionStorage (js "theme") (JStr (js "light")) empty_browser).
  reflexivity.
Defined.


Section Claims3.
Context {NUM : JsNumber}.


End Claims3.


(** C5 counterexample: after acquiring [useLocalStorage("k", "a")] (one
    write, at mount), two calls [setValue("a")] write nothing: the value
    is [Object.is] the current one, React does not commit, and the
    effect on [[value]] does not run. *)
Lemma identical_setValue_no_write :
  match acquire LocalStorage (js "k") (JStr (js "a")) empty_browser with
  | Ok (i, b1) =>
      length (writes b1) = 1%nat /\
      length (writes (snd (run_batches LocalStorage
                             ((SetTo (JStr (js "a")) :: nil) :: (SetTo (JStr (js "a")) :: nil) :: nil)
                             i b1)))
      = 1%nat
  | Throw _ => False
  end.
Proof. vm_compute. split; reflexivity. Qed.

Section Claims5.
Context {NUM : JsNumber}.

(** C5 (amended).  From the acquisition of [useLocalStorage] or
    [useSessionStorage] on, the store is written once at the mount and
    then once per batch of [setValue] calls (the calls of one event
    handler) whose resulting value is not [Object.is] the state before
    the batch; a batch ending on a value [Object.is] the state writes
    nothing. *)
Theorem setValue_writes (sc : scope) (k : jsstring) (iv : jsval) (b b1 : browser)
    (i : instance) (bs : list (list (action jsval))) :
  acquire sc k iv b = Ok (i, b1) ->
  length (writes (snd (run_batches sc bs i b1)))
  = (S (length (writes b)) + changed_batches bs (value i))%nat.
Proof.
  intros A. rewrite run_batches_writes, (acquire_writes sc k iv b b1 i A). reflexivity.
Qed.

End Claims5.

Lemma setValue_writes_witness :
  acquire LocalStorage (js "k") (JStr (js "a")) empty_browser
    = Ok ({| key := js "k"; value := JStr (js "a") |},
          persist LocalStorage (js "k") (JStr (js "a")) empty_browser) /\
  length (writes (snd (run_batches LocalStorage
                         ((SetTo (JStr (js "a")) :: nil) :: (SetTo (JStr (js "b")) :: nil) ::
                          (SetTo (JStr (js "c")) :: SetTo (JStr (js "b")) :: nil) :: nil)
                         {| key := js "k"; value := JStr (js "a") |}
                         (persist LocalStorage (js "k") (JStr (js "a")) empty_browser))))
  = (S (length (writes empty_browser)) +
     changed_batches
       ((SetTo (JStr (js "a")) :: nil) :: (SetTo (JStr (js "b")) :: nil) ::
        (SetTo (JStr (js "c")) :: SetTo (JStr (js "b")) :: nil) :: nil)
       (value {| key := js "k"; value := JStr (js "a") |}))%nat.
Proof.
  split; [reflexivity|].
  apply (setValue_writes LocalStorage (js "k") (JStr (js "a")) empty_browser). reflexivity.
Defined.

Section Claims9.
Context {NUM : JsNumber}.

(** C9.  An empty string stored under the key is falsy, so acquisition
    of [useLocalStorage] or [useSessionStorage] behaves as for an absent
    entry: it returns the initial value (and its mount stores it). *)
Theorem empty_entry_is_absent (sc : scope) (k : jsstring) (iv : jsval) (b : browser) :
  getItem sc b k = Some nil ->
  acquire sc k iv b
  = Ok ({| key := k; value := iv |}, setItem sc b k (stored_text (stringify iv))).
Proof. intros G. unfold acquire, read_initial. rewrite G. reflexivity. Qed.

End Claims9.

Lemma empty_entry_is_absent_witness :
  getItem SessionStorage
    {| local := ∅; session := <[js "k" := nil]> ∅; writes := nil; next_ref := 0 |} (js "k")
    = Some nil /\
  acquire SessionStorage (js "k") (JNum (num 3))
    {| local := ∅; session := <[js "k" := nil]> ∅; writes := nil; next_ref := 0 |}
  = Ok ({| key := js "k"; value := JNum (num 3) |},
        setItem SessionStorage
          {| local := ∅; session := <[js "k" := nil]> ∅; writes := nil; next_ref := 0 |}
          (js "k") (stored_text (stringify (JNum (num 3))))).
Proof.
  split; [reflexivity|].
  apply (empty_entry_is_absent SessionStorage (js "k") (JNum (num 3))
           {| local := ∅; session := <[js "k" := nil]> ∅; writes := nil; next_ref := 0 |}).
  reflexivity.
Defined.

End StorageClaims.

(* ================================================================== *)
(** ** [useCopyToClipboard] against the specification *)

Module CopyClaims.
Import CopyHook.
Local Open Scope string_scope.




(** C7 (the code's slip).  [useCopyToClipboard(2000)], a copy at 0 ms,
    release at 100 ms: the effect returned no cleanup, so the timer of
    the released instance is still pending, and at 2000 ms it calls
    [setIsCopied(false)] on the released instance. *)
Lemma copy_timer_survives_release :
  mounted (run 2000 (Copy 0 "x" :: Release 100 :: nil) (useCopyToClipboard 2000 0))
    = false /\
  timers (run 2000 (Copy 0 "x" :: Release 100 :: nil) (useCopyToClipboard 2000 0))
    = 2000%Z :: nil /\
  late_updates (advance 2000 2000
     (run 2000 (Copy 0 "x" :: Release 100 :: nil) (useCopyToClipboard 2000 0)))
    = 1%nat.
Proof. vm_compute. repeat split. Qed.

End CopyClaims.

(* ================================================================== *)
(** ** The event-backed hooks against the specification *)

Module EventClaims.
Import EventHooks.
Lemma listener_eqb_refl (l : listener) : listener_eqb l l = true.
Proof.
  destruct l as [[|q] ev o]; unfold listener_eqb; cbn;
    rewrite ?String.eqb_refl, Nat.eqb_refl; reflexivity.
Qed.

Lemma listener_eqb_owner (l l' : listener) :
  lowner l <> lowner l' -> listener_eqb l l' = false.
Proof.
  intros D. unfold listener_eqb.
  destruct (Nat.eqb (lowner l) (lowner l')) eqn:E.
  - apply Nat.eqb_eq in E. contradiction.
  - rewrite !andb_false_r. reflexivity.
Qed.

(** The cleanup of a listener hook removes exactly the listener its
    mount added, when the page had none of that instance. *)
Lemma remove_added (t : target) (ev : string) (o : nat) (p : page) :
  List.Forall (fun l => lowner l <> o) (listeners p) ->
  listeners (removeEventListener t ev o (addEventListener t ev o p)) = listeners p.
Proof.
  intros F. unfold removeEventListener, addEventListener, with_listeners. cbn.
  rewrite List.filter_app. cbn. rewrite listener_eqb_refl. cbn. rewrite app_nil_r.
  induction F as [| l ls Hl _ IH]; cbn; [reflexivity|].
  rewrite listener_eqb_owner by (cbn; congruence). cbn. f_equal. exact IH.
Qed.

(** Release of [useWindowSize], [useWindowScroll], [useMousePosition] and
    [useMediaQuery] leaves the page's listeners as they were before
    acquisition. *)
Lemma listener_hooks_release (o : nat) (q : string) (p : page) :
  List.Forall (fun l => lowner l <> o) (listeners p) ->
  listeners (release useWindowSize o (after_mount (acquire useWindowSize o p)))
    = listeners p /\
  listeners (release useWindowScroll o (after_mount (acquire useWindowScroll o p)))
    = listeners p /\
  listeners (release useMousePosition o (after_mount (acquire useMousePosition o p)))
    = listeners p /\
  listeners (release (useMediaQuery q) o (after_mount (acquire (useMediaQuery q) o p)))
    = listeners p.
Proof. intros F. repeat split; apply remove_added, F. Qed.

Lemma listener_hooks_release_witness :
  List.Forall (fun l => lowner l <> 3%nat)
    ({| ltarget := Window; levent := "click"; lowner := 1 |} :: nil) /\
  listeners (release useWindowSize 3 (after_mount (acquire useWindowSize 3
    {| innerWidth := inject_Z 800; innerHeight := inject_Z 600;
       scrollX := inject_Z 0; scrollY := inject_Z 0; matchMedia := fun _ => false;
       listeners := {| ltarget := Window; levent := "click"; lowner := 1 |} :: nil |})))
  = {| ltarget := Window; levent := "click"; lowner := 1 |} :: nil /\
  listeners (release useWindowScroll 3 (after_mount (acquire useWindowScroll 3
    {| innerWidth := inject_Z 800; innerHeight := inject_Z 600;
       scrollX := inject_Z 0; scrollY := inject_Z 0; matchMedia := fun _ => false;
       listeners := {| ltarget := Window; levent := "click"; lowner := 1 |} :: nil |})))
  = {| ltarget := Window; levent := "click"; lowner := 1 |} :: nil /\
  listeners (release useMousePosition 3 (after_mount (acquire useMousePosition 3
    {| innerWidth := inject_Z 800; innerHeight := inject_Z 600;
       scrollX := inject_Z 0; scrollY := inject_Z 0; matchMedia := fun _ => false;
       listeners := {| ltarget := Window; levent := "click"; lowner := 1 |} :: nil |})))
  = {| ltarget := Window; levent := "click"; lowner := 1 |} :: nil /\
  listeners (release (useMediaQuery "print") 3 (after_mount (acquire (useMediaQuery "print") 3
    {| innerWidth := inject_Z 800; innerHeight := inject_Z 600;
       scrollX := inject_Z 0; scrollY := inject_Z 0; matchMedia := fun _ => false;
       listeners := {| ltarget := Window; levent := "click"; lowner := 1 |} :: nil |})))
  = {| ltarget := Window; levent := "click"; lowner := 1 |} :: nil.
Proof.
  split; [repeat constructor; cbn; lia|].
  apply (listener_hooks_release 3 "print"
    {| innerWidth := inject_Z 800; innerHeight := inject_Z 600;
       scrollX := inject_Z 0; scrollY := inject_Z 0; matchMedia := fun _ => false;
       listeners := {| ltarget := Window; levent := "click"; lowner := 1 |} :: nil |}).
  repeat constructor; cbn; lia.
Defined.

(** C6 counterexample: on a page where every media query matches,
    [useMediaQuery("(min-width: 600px)")] returns [false] at its first
    render: the state starts at [false] and is set from [matches] only by
    the mount effect.  [useDarkMode] also starts at [false] and adds no
    listener at all. *)
Lemma event_hooks_not_all_synchronous :
  first_value (acquire (useMediaQuery "(min-width: 600px)") 1
    {| innerWidth := inject_Z 1024; innerHeight := inject_Z 768;
       scrollX := inject_Z 0; scrollY := inject_Z 0;
       matchMedia := fun _ => true; listeners := nil |}) = false /\
  settled_value (acquire (useMediaQuery "(min-width: 600px)") 1
    {| innerWidth := inject_Z 1024; innerHeight := inject_Z 768;
       scrollX := inject_Z 0; scrollY := inject_Z 0;
       matchMedia := fun _ => true; listeners := nil |}) = true /\
  first_value (acquire useDarkMode 2
    {| innerWidth := inject_Z 1024; innerHeight := inject_Z 768;
       scrollX := inject_Z 0; scrollY := inject_Z 0;
       matchMedia := fun _ => true; listeners := nil |}) = false /\
  listeners (after_mount (acquire useDarkMode 2
    {| innerWidth := inject_Z 1024; innerHeight := inject_Z 768;
       scrollX := inject_Z 0; scrollY := inject_Z 0;
       matchMedia := fun _ => true; listeners := nil |})) = nil.
Proof. repeat split. Qed.

(** C6 (amended).  At acquisition:
    - [useWindowSize] and [useWindowScroll] return the current
      [innerWidth]/[innerHeight] and [scrollX]/[scrollY] at the first render
      and add one listener ([resize], [scroll]) on [window];
    - [useMousePosition] returns the window centre (the pointer is not
      read) and adds one [mousemove] listener;
    - [useMediaQuery(query)] returns [false] at the first render and
      [matchMedia(query).matches] once its mount effect is rendered; it adds
      one [change] listener;
    - [useDarkMode] returns [false] at the first render and the dark-scheme
      [matches] once its mount effect is rendered; it adds no listener. *)
Theorem event_hooks_acquisition (o : nat) (q : string) (p : page) :
  first_value (acquire useWindowSize o p) = (innerWidth p, innerHeight p) /\
  listeners (after_mount (acquire useWindowSize o p))
    = (listeners p ++ {| ltarget := Window; levent := "resize"; lowner := o |} :: nil)%list /\
  first_value (acquire useWindowScroll o p) = (scrollX p, scrollY p) /\
  listeners (after_mount (acquire useWindowScroll o p))
    = (listeners p ++ {| ltarget := Window; levent := "scroll"; lowner := o |} :: nil)%list /\
  first_value (acquire useMousePosition o p)
    = (Qhalf (innerWidth p), Qhalf (innerHeight p)) /\
  listeners (after_mount (acquire useMousePosition o p))
    = (listeners p ++ {| ltarget := Window; levent := "mousemove"; lowner := o |} :: nil)%list /\
  first_value (acquire (useMediaQuery q) o p) = false /\
  settled_value (acquire (useMediaQuery q) o p) = matchMedia p q /\
  listeners (after_mount (acquire (useMediaQuery q) o p))
    = (listeners p ++ {| ltarget := MediaQueryList q; levent := "change"; lowner := o |} :: nil)%list /\
  first_value (acquire useDarkMode o p) = false /\
  settled_value (acquire useDarkMode o p) = matchMedia p dark_query /\
  listeners (after_mount (acquire useDarkMode o p)) = listeners p.
Proof. repeat split. Qed.

End EventClaims.

(* ================================================================== *)
(** ** [useGeolocation] and [useBoolean] against the specification *)

Module GeoClaims.
Import GeoHook.

Lemma run_no_waiting (os : list outcome) :
  forall w, waiting w = 0%nat -> run os w = w.
Proof.
  induction os as [| o os IH]; intros w W; cbn; [reflexivity|].
  unfold deliver at 2. rewrite W. apply IH, W.
Qed.

(** C8.  Without [navigator.geolocation], [useGeolocation] does not throw
    and reports [{loading: false, error: Error("GEOLOCATION_NOT_SUPPORTED"),
    data: null}] in its state, with no [getCurrentPosition] call.  With it,
    [getCurrentPosition] is called once.  A failure delivered to that call
    gives [{loading: false, error, data: null}], and nothing after it
    changes the state or calls [getCurrentPosition] again: no retry. *)
Theorem geolocation_failure_in_state (c : Z) (later : list outcome) :
  state (useGeolocation false)
    = {| loading := false; error := Some NotSupported; data := None |} /\
  calls (useGeolocation false) = 0%nat /\
  calls (useGeolocation true) = 1%nat /\
  state (run (Failure c :: later) (useGeolocation true))
    = {| loading := false; error := Some (PositionError c); data := None |} /\
  calls (run (Failure c :: later) (useGeolocation true)) = 1%nat.
Proof.
  cbn [run fold_left]. rewrite run_no_waiting by reflexivity.
  repeat split.
Qed.

End GeoClaims.

Module BooleanClaims.
Import React BooleanHook.

(** C10.  For every state [b] of [useBoolean]: [toggle] twice gives [b]
    back, whether in one batch or in two; [setTrue] gives [true] and
    [setFalse] gives [false] from any state; and with the argument omitted
    the initial state is [false]. *)
Theorem useBoolean_laws (b : bool) :
  run_batch (toggle :: toggle :: nil) b = b /\
  apply_action toggle (apply_action toggle b) = b /\
  apply_action setTrue b = true /\
  apply_action setFalse b = false /\
  useBoolean None = false.
Proof. destruct b; repeat split. Qed.

End BooleanClaims.

(* ================================================================== *)
(** ** More properties of the storage hooks *)

Module StorageExtras.
Import Js Json JsonFacts React StorageHooks StorageFacts IntNumber.
Local Open Scope string_scope.

Section Extras.
Context {NUM : JsNumber}.

(** [JSON.parse(JSON.stringify(v))], as the two hooks compose them, gives
    back [v] up to object identity for every JSON-representable [v]: no
    [undefined], [NaN], infinity or [-0] anywhere, object keys in
    JavaScript enumeration order. *)
Theorem json_codec_round_trip (base : N) (v : jsval) :
  json_value v = true ->
  exists v', parse base (stored_text (stringify v)) = Some v' /\ strip v' = strip v.
Proof. apply parse_stored_stringify. Qed.

End Extras.

Lemma json_codec_round_trip_witness :
  json_value (JObj 4 ((js "1", JArr 2 (JBool true :: JNull :: nil)) ::
                      (js "b", JNum (num (-12))) ::
                      (js "a", JStr (quote :: 10%N :: 55296%N :: ch "x" :: nil)) :: nil)) = true /\
  exists v',
    parse 0 (stored_text (stringify
      (JObj 4 ((js "1", JArr 2 (JBool true :: JNull :: nil)) ::
               (js "b", JNum (num (-12))) ::
               (js "a", JStr (quote :: 10%N :: 55296%N :: ch "x" :: nil)) :: nil)))) = Some v' /\
    strip v' = strip
      (JObj 4 ((js "1", JArr 2 (JBool true :: JNull :: nil)) ::
               (js "b", JNum (num (-12))) ::
               (js "a", JStr (quote :: 10%N :: 55296%N :: ch "x" :: nil)) :: nil)).
Proof.
  split; [reflexivity|].
  apply json_codec_round_trip. reflexivity.
Defined.

Section Extras2.
Context {NUM : JsNumber}.

(** After acquisition and any batches of [setValue] calls, the store
    holds under the key [JSON.stringify] of the last committed state,
    which is [Object.is] the current state: the current state object
    (possibly mutated since it was written) or, for a primitive state,
    the state itself. *)
Theorem store_mirrors_state (sc : scope) (k : jsstring) (iv : jsval) (b b1 : browser)
    (i : instance) (bs : list (list (action jsval))) :
  acquire sc k iv b = Ok (i, b1) ->
  (exists c, getItem sc (snd (run_batches sc bs i b1)) k = Some (stored_text (stringify c)) /\
     object_is c (value (fst (run_batches sc bs i b1))) = true) /\
  (is_primitive (value (fst (run_batches sc bs i b1))) = true ->
   getItem sc (snd (run_batches sc bs i b1)) k
   = Some (stored_text (stringify (value (fst (run_batches sc bs i b1)))))).
Proof.
  intros A. destruct (acquire_committed sc k iv b b1 i A) as [K C].
  destruct (run_batches_committed sc bs i b1 C) as [K1 (c & G & O)].
  rewrite K1, K in G. split.
  - exists c. split; [exact G | exact O].
  - intros P. rewrite <- (object_is_primitive _ _ P O). exact G.
Qed.

End Extras2.

Lemma store_mirrors_state_witness :
  acquire SessionStorage (js "n") (JNum (num 0)) empty_browser
    = Ok ({| key := js "n"; value := JNum (num 0) |},
          persist SessionStorage (js "n") (JNum (num 0)) empty_browser) /\
  (exists c,
     getItem SessionStorage
       (snd (run_batches SessionStorage
               ((SetTo (JNum (num 5)) :: nil) ::
                (SetTo (JNum (num 5)) :: Update (fun _ => JNull) :: nil) :: nil)
               {| key := js "n"; value := JNum (num 0) |}
               (persist SessionStorage (js "n") (JNum (num 0)) empty_browser))) (js "n")
     = Some (stored_text (stringify c)) /\
     object_is c (value (fst (run_batches SessionStorage
               ((SetTo (JNum (num 5)) :: nil) ::
                (SetTo (JNum (num 5)) :: Update (fun _ => JNull) :: nil) :: nil)
               {| key := js "n"; value := JNum (num 0) |}
               (persist SessionStorage (js "n") (JNum (num 0)) empty_browser)))) = true) /\
  (is_primitive (value (fst (run_batches SessionStorage
               ((SetTo (JNum (num 5)) :: nil) ::
                (SetTo (JNum (num 5)) :: Update (fun _ => JNull) :: nil) :: nil)
               {| key := js "n"; value := JNum (num 0) |}
               (persist SessionStorage (js "n") (JNum (num 0)) empty_browser)))) = true ->
   getItem SessionStorage
       (snd (run_batches SessionStorage
               ((SetTo (JNum (num 5)) :: nil) ::
                (SetTo (JNum (num 5)) :: Update (fun _ => JNull) :: nil) :: nil)
               {| key := js "n"; value := JNum (num 0) |}
               (persist SessionStorage (js "n") (JNum (num 0)) empty_browser))) (js "n")
   = Some (stored_text (stringify (value (fst (run_batches SessionStorage
               ((SetTo (JNum (num 5)) :: nil) ::
                (SetTo (JNum (num 5)) :: Update (fun _ => JNull) :: nil) :: nil)
               {| key := js "n"; value := JNum (num 0) |}
               (persist SessionStorage (js "n") (JNum (num 0)) empty_browser))))))).
Proof.
  split; [reflexivity|].
  apply (store_mirrors_state SessionStorage (js "n") (JNum (num 0)) empty_browser).
  reflexivity.
Defined.

Section Extras3.
Context {NUM : JsNumber}.

Lemma run_batches_frame (sc sc' : scope) (k k' : jsstring) (bs : list (list (action jsval))) :
  sc' <> sc \/ k' <> k ->
  forall i b, key i = k ->
  getItem sc' (snd (run_batches sc bs i b)) k' = getItem sc' b k'.
Proof.
  intros D. induction bs as [| acts bs IH]; intros i b K; cbn [run_batches]; [reflexivity|].
  unfold setValue. destruct (object_is (value i) (run_batch acts (value i))).
  - apply IH. cbn. exact K.
  - rewrite IH by (cbn; exact K). unfold persist. rewrite K.
    apply getItem_setItem_other, D.
Qed.

(** An instance only ever writes its own key of its own store: every other
    key, and the other store, read as before its acquisition, whatever
    batches of [setValue] follow. *)
Theorem storage_hook_frame (sc sc' : scope) (k k' : jsstring) (iv : jsval) (b b1 : browser)
    (i : instance) (bs : list (list (action jsval))) :
  acquire sc k iv b = Ok (i, b1) ->
  sc' <> sc \/ k' <> k ->
  getItem sc' (snd (run_batches sc bs i b1)) k' = getItem sc' b k'.
Proof.
  intros A D. destruct (acquire_committed sc k iv b b1 i A) as [K _].
  rewrite (run_batches_frame sc sc' k k' bs D i b1 K).
  unfold acquire in A. destruct (read_initial sc b k iv) as [[v b']|] eqn:R; [|discriminate].
  injection A as _ <-. unfold persist. rewrite getItem_setItem_other by exact D.
  destruct (read_initial_frame _ _ _ _ _ _ R) as (L & S & _).
  apply getItem_frame; assumption.
Qed.

End Extras3.

Lemma storage_hook_frame_witness :
  acquire LocalStorage (js "a") JNull
    {| local := <[js "b" := js "1"]> ∅; session := <[js "a" := js "2"]> ∅; writes := nil;
       next_ref := 0 |}
    = Ok ({| key := js "a"; value := JNull |},
          persist LocalStorage (js "a") JNull
            {| local := <[js "b" := js "1"]> ∅; session := <[js "a" := js "2"]> ∅;
               writes := nil; next_ref := 0 |}) /\
  (SessionStorage <> LocalStorage \/ js "a" <> js "a") /\
  getItem SessionStorage
    (snd (run_batches LocalStorage ((SetTo (JBool true) :: nil) :: nil)
            {| key := js "a"; value := JNull |}
            (persist LocalStorage (js "a") JNull
               {| local := <[js "b" := js "1"]> ∅; session := <[js "a" := js "2"]> ∅;
                  writes := nil; next_ref := 0 |})))
    (js "a")
  = getItem SessionStorage
      {| local := <[js "b" := js "1"]> ∅; session := <[js "a" := js "2"]> ∅; writes := nil;
         next_ref := 0 |} (js "a").
Proof.
  split; [reflexivity|]. split; [left; discriminate|].
  apply (storage_hook_frame LocalStorage SessionStorage (js "a") (js "a") JNull);
    [reflexivity|].
  left; discriminate.
Defined.

Section Extras4.
Context {NUM : JsNumber}.

(** Batching changes how often the store is written, never the state:
    after any batches of [setValue] calls the state is the result of all
    the calls applied in order. *)
Theorem storage_state_ignores_batching (sc : scope) (bs : list (list (action jsval))) :
  forall i b,
  value (fst (run_batches sc bs i b)) = run_batch (concat bs) (value i).
Proof.
  induction bs as [| acts bs IH]; intros i b; cbn [run_batches concat]; [reflexivity|].
  change (run_batch (acts ++ concat bs) (value i))
    with (fold_left (fun s a => apply_action a s) (acts ++ concat bs) (value i)).
  rewrite fold_left_app.
  change (fold_left (fun s a => apply_action a s) acts (value i))
    with (run_batch acts (value i)).
  change (fold_left (fun s a => apply_action a s) (concat bs) (run_batch acts (value i)))
    with (run_batch (concat bs) (run_batch acts (value i))).
  unfold setValue. destruct (object_is (value i) (run_batch acts (value i)));
    rewrite IH; reflexivity.
Qed.

(** When the state of an instance is [undefined] (for instance
    [useLocalStorage(key)] with the initial value omitted, on a fresh key),
    the effect stores the text ["undefined"], which [JSON.parse] rejects:
    every later acquisition with that key throws [SyntaxError]. *)
Theorem undefined_state_breaks_reacquire (sc : scope) (k : jsstring) (iv iv' : jsval)
    (b b1 : browser) (i : instance) (bs : list (list (action jsval))) :
  acquire sc k iv b = Ok (i, b1) ->
  value (fst (run_batches sc bs i b1)) = JUndefined ->
  acquire sc k iv' (snd (run_batches sc bs i b1)) = Throw "SyntaxError".
Proof.
  intros A U. destruct (acquire_committed sc k iv b b1 i A) as [K C].
  destruct (run_batches_committed sc bs i b1 C) as [K1 (c & G & O)].
  rewrite K1, K in G. rewrite U in O.
  pose proof (object_is_primitive c JUndefined eq_refl O) as Ec. subst c.
  unfold acquire, read_initial. rewrite G. reflexivity.
Qed.

End Extras4.

Lemma undefined_state_breaks_reacquire_witness :
  acquire LocalStorage (js "k") JUndefined empty_browser
    = Ok ({| key := js "k"; value := JUndefined |},
          persist LocalStorage (js "k") JUndefined empty_browser) /\
  value (fst (run_batches LocalStorage nil {| key := js "k"; value := JUndefined |}
                (persist LocalStorage (js "k") JUndefined empty_browser))) = JUndefined /\
  acquire LocalStorage (js "k") (JStr (js "fallback"))
    (snd (run_batches LocalStorage nil {| key := js "k"; value := JUndefined |}
            (persist LocalStorage (js "k") JUndefined empty_browser)))
  = Throw "SyntaxError".
Proof.
  split; [reflexivity|]. split; [reflexivity|].
  apply (undefined_state_breaks_reacquire LocalStorage (js "k") JUndefined (JStr (js "fallback"))
           empty_browser); reflexivity.
Defined.

End StorageExtras.

(* ================================================================== *)
(** ** More properties of [usePrevious] *)

Module PreviousExtras.
Import Js PreviousHook.

Section Extras.
Context {NUM : JsNumber}.

Lemma usePrevious_run_from (vs : list jsval) :
  forall d, usePrevious_run vs {| current := d; deps := Some d |} = removelast (d :: vs).
Proof.
  induction vs as [| v vs IH]; intros d; [reflexivity|].
  cbn [usePrevious_run usePrevious_render current deps].
  destruct (object_is d v); rewrite IH; reflexivity.
Qed.

(** [usePrevious(value)] returns, at each render, the [value] of the
    previous render ([undefined] at the first).  In particular a re-render
    with an unchanged [value] returns that same [value], not the last
    different one. *)
Theorem usePrevious_returns_previous_render (vs : list jsval) :
  usePrevious_run vs usePrevious_mount = removelast (JUndefined :: vs).
Proof.
  destruct vs as [| v vs]; [reflexivity|].
  cbn [usePrevious_run usePrevious_render usePrevious_mount current deps].
  rewrite usePrevious_run_from. reflexivity.
Qed.

End Extras.

End PreviousExtras.

(* ================================================================== *)
(** ** More properties of [useBoolean], [useDarkMode] and [usePrevious] *)

Module ToggleExtras.
Import React.

Lemma run_batch_app {A : Type} (xs ys : list (action A)) (s : A) :
  run_batch (xs ++ ys) s = run_batch ys (run_batch xs s).
Proof. unfold run_batch. apply fold_left_app. Qed.

Lemma run_batch_negb_repeat (n : nat) :
  forall b, run_batch (repeat (Update negb) n) b = if Nat.even n then b else negb b.
Proof.
  induction n as [| n IH]; intros b; [reflexivity|].
  cbn [repeat]. change (run_batch (Update negb :: repeat (Update negb) n) b)
    with (run_batch (repeat (Update negb) n) (negb b)).
  rewrite IH, Nat.even_succ, <- Nat.negb_even.
  destruct (Nat.even n), b; reflexivity.
Qed.

(** [useBoolean]: [n] calls of [toggle] in one batch flip the state [n]
    times (the updater form reads the queued state, so no call is lost);
    a batch that ends with [setTrue] or [setFalse] gives [true] or
    [false] whatever came before it. *)
Theorem useBoolean_batches (n : nat) (acts : list (action bool)) (b : bool) :
  run_batch (repeat BooleanHook.toggle n) b = (if Nat.even n then b else negb b) /\
  run_batch (acts ++ BooleanHook.setTrue :: nil) b = true /\
  run_batch (acts ++ BooleanHook.setFalse :: nil) b = false.
Proof.
  split; [apply run_batch_negb_repeat|].
  split; rewrite run_batch_app; reflexivity.
Qed.

(** [useDarkMode]: once its mount effect has run, the state is the
    [prefers-color-scheme: dark] match of the page; from there [n] calls of
    [toogle] flip it [n] times, and a batch ending with [enable] or
    [disable] gives [true] or [false]. *)
Theorem useDarkMode_setters (o n : nat) (p : EventHooks.page) (acts : list (action bool)) :
  EventHooks.settled_value (EventHooks.acquire EventHooks.useDarkMode o p)
    = EventHooks.matchMedia p EventHooks.dark_query /\
  run_batch (repeat DarkModeHook.toogle n)
    (EventHooks.settled_value (EventHooks.acquire EventHooks.useDarkMode o p))
  = (if Nat.even n then EventHooks.matchMedia p EventHooks.dark_query
     else negb (EventHooks.matchMedia p EventHooks.dark_query)) /\
  run_batch (acts ++ DarkModeHook.enable :: nil)
    (EventHooks.settled_value (EventHooks.acquire EventHooks.useDarkMode o p)) = true /\
  run_batch (acts ++ DarkModeHook.disable :: nil)
    (EventHooks.settled_value (EventHooks.acquire EventHooks.useDarkMode o p)) = false.
Proof.
  split; [reflexivity|]. split; [apply run_batch_negb_repeat|].
  split; rewrite run_batch_app; reflexivity.
Qed.

End ToggleExtras.


(* ================================================================== *)
(** ** More properties of [useCopyToClipboard] *)

Module CopyExtras.
Import CopyHook.

Lemma advance_keeps (timeout t : Z) (w : world) :
  mounted w = true ->
  (isCopied w = true /\ length (timers w) = 1%nat) \/ (isCopied w = false /\ timers w = nil) ->
  mounted (advance timeout t w) = true /\
  ((isCopied (advance timeout t w) = true /\ length (timers (advance timeout t w)) = 1%nat)
   \/ (isCopied (advance timeout t w) = false /\ timers (advance timeout t w) = nil)) /\
  clipboard (advance timeout t w) = clipboard w.
Proof.
  destruct w as [n ic m ts cb lu]; cbn [mounted isCopied timers clipboard].
  intros -> [[-> L] | [-> ->]].
  - destruct ts as [| d [| d' ts]]; try discriminate. unfold advance.
    cbn [length advance_fuel timers]. destruct (Z.leb d t); cbn; auto.
  - unfold advance. cbn. auto.
Qed.

Lemma copy_keeps (timeout : Z) (text : string) (w : world) :
  mounted w = true ->
  (isCopied w = true /\ length (timers w) = 1%nat) \/ (isCopied w = false /\ timers w = nil) ->
  mounted (copyToClipboard timeout text w) = true /\
  ((isCopied (copyToClipboard timeout text w) = true
    /\ length (timers (copyToClipboard timeout text w)) = 1%nat)
   \/ (isCopied (copyToClipboard timeout text w) = false
       /\ timers (copyToClipboard timeout text w) = nil)) /\
  clipboard (copyToClipboard timeout text w) = (clipboard w ++ text :: nil)%list.
Proof.
  destruct w as [n ic m ts cb lu]; cbn [mounted isCopied timers clipboard].
  intros -> [[-> L] | [-> ->]]; cbn; auto.
Qed.

Lemma run_keeps (timeout : Z) (es : list event) :
  List.Forall (fun e => match e with Release _ => False | _ => True end) es ->
  forall w, mounted w = true ->
  (isCopied w = true /\ length (timers w) = 1%nat) \/ (isCopied w = false /\ timers w = nil) ->
  mounted (run timeout es w) = true /\
  ((isCopied (run timeout es w) = true /\ length (timers (run timeout es w)) = 1%nat)
   \/ (isCopied (run timeout es w) = false /\ timers (run timeout es w) = nil)) /\
  clipboard (run timeout es w)
  = (clipboard w ++ flat_map (fun e => match e with Copy _ s => s :: nil | _ => nil end) es)%list.
Proof.
  induction 1 as [| e es He _ IH]; intros w M I.
  - cbn. rewrite app_nil_r. auto.
  - unfold run. cbn [fold_left]. fold (run timeout es (step timeout w e)).
    destruct e as [t s | t | t]; [| contradiction |]; cbn [step flat_map].
    + destruct (advance_keeps timeout t w M I) as (M1 & I1 & C1).
      destruct (copy_keeps timeout s _ M1 I1) as (M2 & I2 & C2).
      destruct (IH _ M2 I2) as (M3 & I3 & C3).
      split; [exact M3|]. split; [exact I3|]. rewrite C3, C2, C1, <- app_assoc. reflexivity.
    + destruct (advance_keeps timeout t w M I) as (M1 & I1 & C1).
      destruct (IH _ M1 I1) as (M3 & I3 & C3).
      split; [exact M3|]. split; [exact I3|]. rewrite C3, C1. reflexivity.
Qed.

(** Over any run of copies and waits of a mounted [useCopyToClipboard]:
    [isCopied] is [true] exactly when one reset is pending, and there is
    never more than one pending reset; every copy writes its text to the
    clipboard, whether or not the flag was already set. *)
Theorem copy_flag_tracks_timer (timeout t0 : Z) (es : list event) :
  List.Forall (fun e => match e with Release _ => False | _ => True end) es ->
  mounted (run timeout es (useCopyToClipboard timeout t0)) = true /\
  ((isCopied (run timeout es (useCopyToClipboard timeout t0)) = true
    /\ length (timers (run timeout es (useCopyToClipboard timeout t0))) = 1%nat)
   \/ (isCopied (run timeout es (useCopyToClipboard timeout t0)) = false
       /\ timers (run timeout es (useCopyToClipboard timeout t0)) = nil)) /\
  clipboard (run timeout es (useCopyToClipboard timeout t0))
  = flat_map (fun e => match e with Copy _ s => s :: nil | _ => nil end) es.
Proof.
  intros F. apply (run_keeps timeout es F); cbn; auto.
Qed.

Lemma copy_flag_tracks_timer_witness :
  List.Forall (fun e => match e with Release _ => False | _ => True end)
    (Copy 0 "a" :: Copy 10 "b" :: Wait 3000 :: Copy 3100 "c" :: nil) /\
  mounted (run 1500 (Copy 0 "a" :: Copy 10 "b" :: Wait 3000 :: Copy 3100 "c" :: nil)
             (useCopyToClipboard 1500 0)) = true /\
  ((isCopied (run 1500 (Copy 0 "a" :: Copy 10 "b" :: Wait 3000 :: Copy 3100 "c" :: nil)
                (useCopyToClipboard 1500 0)) = true
    /\ length (timers (run 1500 (Copy 0 "a" :: Copy 10 "b" :: Wait 3000 :: Copy 3100 "c" :: nil)
                         (useCopyToClipboard 1500 0))) = 1%nat)
   \/ (isCopied (run 1500 (Copy 0 "a" :: Copy 10 "b" :: Wait 3000 :: Copy 3100 "c" :: nil)
                   (useCopyToClipboard 1500 0)) = false
       /\ timers (run 1500 (Copy 0 "a" :: Copy 10 "b" :: Wait 3000 :: Copy 3100 "c" :: nil)
                    (useCopyToClipboard 1500 0)) = nil)) /\
  clipboard (run 1500 (Copy 0 "a" :: Copy 10 "b" :: Wait 3000 :: Copy 3100 "c" :: nil)
               (useCopyToClipboard 1500 0))
  = flat_map (fun e => match e with Copy _ s => s :: nil | _ => nil end)
      (Copy 0 "a" :: Copy 10 "b" :: Wait 3000 :: Copy 3100 "c" :: nil).
Proof.
  split; [repeat constructor|].
  apply (copy_flag_tracks_timer 1500 0). repeat constructor.
Defined.

End CopyExtras.

(* ================================================================== *)
(** ** More properties of the event handlers *)

Module EventExtras.
Import EventHooks EventDispatch EventClaims.

Lemma registered_with_listeners (t : target) (ev : string) (o : nat) (ls : list listener)
    (p : page) :
  registered t ev o (with_listeners ls p) = existsb (listener_eqb
    {| ltarget := t; levent := ev; lowner := o |}) ls.
Proof. reflexivity. Qed.

Lemma registered_added (t : target) (ev : string) (o : nat) (p p' : page) :
  registered t ev o (with_listeners (listeners (addEventListener t ev o p)) p') = true.
Proof.
  rewrite registered_with_listeners. cbn [addEventListener with_listeners listeners].
  rewrite existsb_app. cbn. rewrite listener_eqb_refl, orb_true_r. reflexivity.
Qed.

Lemma registered_none (t : target) (ev : string) (o : nat) (ls : list listener) :
  List.Forall (fun l => lowner l <> o) ls ->
  existsb (listener_eqb {| ltarget := t; levent := ev; lowner := o |}) ls = false.
Proof.
  induction 1 as [| l ls Hl _ IH]; [reflexivity|].
  cbn. rewrite listener_eqb_owner by (cbn; congruence). exact IH.
Qed.

(** After release of an instance (that had no other listener on the page),
    no event reaches it: the state of [useWindowSize], [useWindowScroll],
    [useMousePosition] and [useMediaQuery] stays as it was. *)
Theorem event_handlers_stop_at_release (o : nat) (q : string) (p p' : page) (cx cy : Q)
    (m : bool) (s : Q * Q) (b : bool) :
  List.Forall (fun l => lowner l <> o) (listeners p) ->
  resize_size o (with_listeners (listeners (release useWindowSize o
    (after_mount (acquire useWindowSize o p)))) p') s = s /\
  scroll_position o (with_listeners (listeners (release useWindowScroll o
    (after_mount (acquire useWindowScroll o p)))) p') s = s /\
  mousemove_position o (with_listeners (listeners (release useMousePosition o
    (after_mount (acquire useMousePosition o p)))) p') cx cy s = s /\
  media_change q o (with_listeners (listeners (release (useMediaQuery q) o
    (after_mount (acquire (useMediaQuery q) o p)))) p') m b = b.
Proof.
  intros F.
  unfold resize_size, scroll_position, mousemove_position, media_change, on_event.
  rewrite !registered_with_listeners.
  cbn [release cleanup acquire after_mount mount_effect useWindowSize useWindowScroll
       useMousePosition useMediaQuery].
  rewrite !remove_added by exact F. rewrite !registered_none by exact F.
  repeat split.
Qed.

Lemma event_handlers_stop_at_release_witness :
  List.Forall (fun l => lowner l <> 2%nat)
    (listeners {| innerWidth := inject_Z 800; innerHeight := inject_Z 600;
                  scrollX := inject_Z 0; scrollY := inject_Z 0;
                  matchMedia := fun _ => false;
                  listeners := {| ltarget := Window; levent := "resize"; lowner := 1 |} :: nil |})
  /\
  resize_size 2 (with_listeners (listeners (release useWindowSize 2
    (after_mount (acquire useWindowSize 2
      {| innerWidth := inject_Z 800; innerHeight := inject_Z 600;
         scrollX := inject_Z 0; scrollY := inject_Z 0; matchMedia := fun _ => false;
         listeners := {| ltarget := Window; levent := "resize"; lowner := 1 |} :: nil |}))))
    {| innerWidth := inject_Z 1280; innerHeight := inject_Z 720;
       scrollX := inject_Z 0; scrollY := inject_Z 0; matchMedia := fun _ => true;
       listeners := nil |})
    (inject_Z 800, inject_Z 600) = (inject_Z 800, inject_Z 600) /\
  scroll_position 2 (with_listeners (listeners (release useWindowScroll 2
    (after_mount (acquire useWindowScroll 2
      {| innerWidth := inject_Z 800; innerHeight := inject_Z 600;
         scrollX := inject_Z 0; scrollY := inject_Z 0; matchMedia := fun _ => false;
         listeners := {| ltarget := Window; levent := "resize"; lowner := 1 |} :: nil |}))))
    {| innerWidth := inject_Z 1280; innerHeight := inject_Z 720;
       scrollX := inject_Z 0; scrollY := inject_Z 0; matchMedia := fun _ => true;
       listeners := nil |})
    (inject_Z 800, inject_Z 600) = (inject_Z 800, inject_Z 600) /\
  mousemove_position 2 (with_listeners (listeners (release useMousePosition 2
    (after_mount (acquire useMousePosition 2
      {| innerWidth := inject_Z 800; innerHeight := inject_Z 600;
         scrollX := inject_Z 0; scrollY := inject_Z 0; matchMedia := fun _ => false;
         listeners := {| ltarget := Window; levent := "resize"; lowner := 1 |} :: nil |}))))
    {| innerWidth := inject_Z 1280; innerHeight := inject_Z 720;
       scrollX := inject_Z 0; scrollY := inject_Z 0; matchMedia := fun _ => true;
       listeners := nil |})
    (inject_Z 5) (inject_Z 7) (inject_Z 800, inject_Z 600)
    = (inject_Z 800, inject_Z 600) /\
  media_change "print" 2 (with_listeners (listeners (release (useMediaQuery "print") 2
    (after_mount (acquire (useMediaQuery "print") 2
      {| innerWidth := inject_Z 800; innerHeight := inject_Z 600;
         scrollX := inject_Z 0; scrollY := inject_Z 0; matchMedia := fun _ => false;
         listeners := {| ltarget := Window; levent := "resize"; lowner := 1 |} :: nil |}))))
    {| innerWidth := inject_Z 1280; innerHeight := inject_Z 720;
       scrollX := inject_Z 0; scrollY := inject_Z 0; matchMedia := fun _ => true;
       listeners := nil |})
    true false = false.
Proof.
  split; [repeat constructor; cbn; lia|].
  apply (event_handlers_stop_at_release 2 "print"
    {| innerWidth := inject_Z 800; innerHeight := inject_Z 600;
       scrollX := inject_Z 0; scrollY := inject_Z 0; matchMedia := fun _ => false;
       listeners := {| ltarget := Window; levent := "resize"; lowner := 1 |} :: nil |}).
  repeat constructor; cbn; lia.
Defined.

(** [useWindowResize(callback)] calls [callback()] once per [resize] while
    mounted, and never after its release (when the instance had no other
    listener on the page). *)
Theorem useWindowResize_callback (o : nat) (p p' : page) (n : nat) :
  List.Forall (fun l => lowner l <> o) (listeners p) ->
  resize_callback_calls o
    (with_listeners (listeners (after_mount (acquire useWindowResize o p))) p') n
    = S n /\
  resize_callback_calls o (with_listeners (listeners (release useWindowResize o
    (after_mount (acquire useWindowResize o p)))) p') n = n.
Proof.
  intros F. unfold resize_callback_calls.
  cbn [release cleanup acquire after_mount mount_effect useWindowResize].
  rewrite registered_added. split; [reflexivity|].
  rewrite registered_with_listeners, remove_added by exact F.
  rewrite registered_none by exact F. reflexivity.
Qed.

Lemma useWindowResize_callback_witness :
  List.Forall (fun l => lowner l <> 2%nat)
    (listeners {| innerWidth := inject_Z 800; innerHeight := inject_Z 600;
                  scrollX := inject_Z 0; scrollY := inject_Z 0;
                  matchMedia := fun _ => false;
                  listeners := {| ltarget := Window; levent := "resize"; lowner := 1 |} :: nil |})
  /\
  resize_callback_calls 2 (with_listeners (listeners (after_mount (acquire useWindowResize 2
      {| innerWidth := inject_Z 800; innerHeight := inject_Z 600;
         scrollX := inject_Z 0; scrollY := inject_Z 0; matchMedia := fun _ => false;
         listeners := {| ltarget := Window; levent := "resize"; lowner := 1 |} :: nil |})))
    {| innerWidth := inject_Z 1280; innerHeight := inject_Z 720;
       scrollX := inject_Z 0; scrollY := inject_Z 0; matchMedia := fun _ => true;
       listeners := nil |}) 4%nat = 5%nat /\
  resize_callback_calls 2 (with_listeners (listeners (release useWindowResize 2
    (after_mount (acquire useWindowResize 2
      {| innerWidth := inject_Z 800; innerHeight := inject_Z 600;
         scrollX := inject_Z 0; scrollY := inject_Z 0; matchMedia := fun _ => false;
         listeners := {| ltarget := Window; levent := "resize"; lowner := 1 |} :: nil |}))))
    {| innerWidth := inject_Z 1280; innerHeight := inject_Z 720;
       scrollX := inject_Z 0; scrollY := inject_Z 0; matchMedia := fun _ => true;
       listeners := nil |}) 4%nat = 4%nat.
Proof.
  split; [repeat constructor; cbn; lia|].
  apply (useWindowResize_callback 2
    {| innerWidth := inject_Z 800; innerHeight := inject_Z 600;
       scrollX := inject_Z 0; scrollY := inject_Z 0; matchMedia := fun _ => false;
       listeners := {| ltarget := Window; levent := "resize"; lowner := 1 |} :: nil |}).
  repeat constructor; cbn; lia.
Defined.

End EventExtras.
